(** * Screenshot worker: URL pattern, render session and cache-aside gateway

    A shallow embedding of [src/index.js]: the compound URL [pattern] and the
    settings derived from a match, the [Browser] durable object ([fetch] and
    [alarm]) and the worker's default [fetch] handler.

    Strings are byte strings (the URLs handled are ASCII). The JavaScript
    numbers that reach this code are doubles of integral value: such a double
    is given by its exact value in [Z], with [NaN] and [Infinity] kept apart;
    [parseInt] rounds to the nearest double. Time stamps and the constants
    stay far below 2^53, where the arithmetic of doubles is exact.

    A handler is first modelled as running from its call to its return. It
    gives up control at each [await], where the alarm may be delivered to the
    same object: [fetch_during] is [Browser.fetch] with such deliveries. *)

From Stdlib Require Import ZArith Ascii String List Bool Lia.
From stdpp Require Import base option gmap strings pretty.

Import ListNotations.
Local Open Scope string_scope.
Local Open Scope Z_scope.

(** ** Regular expressions with the backtracking semantics of ECMAScript *)

Module Regex.

(** The constructs that occur in [pattern]. A quantifier carries its
    greediness; a capturing group carries its name. *)
Inductive regex : Type :=
| Bol                                   (* ^ *)
| Eol                                   (* $ *)
| Cls (p : ascii -> bool)               (* one character of a class *)
| Cat (r1 r2 : regex)                   (* r1 r2 *)
| Alt (r1 r2 : regex)                   (* r1|r2, left first *)
| Opt (r : regex)                       (* r? (greedy) *)
| Star (greedy : bool) (r : regex)      (* r* and r*? *)
| Grp (name : string) (r : regex).      (* (?<name>r) *)

Definition Eps : regex := Star true (Cls (fun _ => false)).
Definition Plus (r : regex) : regex := Cat r (Star true r).
Definition Chr (c : ascii) : regex := Cls (Ascii.eqb c).

Fixpoint Lit (s : string) : regex :=
  match s with
  | EmptyString => Eps
  | String c EmptyString => Chr c
  | String c s' => Cat (Chr c) (Lit s')
  end.

(** The named groups that took part in a match, latest binding first. *)
Definition captures := list (string * string).

Fixpoint lookup_group (name : string) (cs : captures) : option string :=
  match cs with
  | [] => None
  | (n, v) :: cs' => if String.eqb n name then Some v else lookup_group name cs'
  end.

Definition at_start (input rest : string) : bool :=
  Nat.eqb (String.length rest) (String.length input).

(** The text consumed between two suffixes [rest] and [rest'] of the input. *)
Definition consumed (rest rest' : string) : string :=
  String.substring 0 (String.length rest - String.length rest') rest.

Definition orelse {A} (x y : option A) : option A :=
  match x with Some _ => x | None => y end.

(** [exec r input rest cs k]: match [r] at the suffix [rest] of [input] with
    the captures [cs] so far, then continue with [k]; alternatives are tried
    in ECMAScript's order and the first overall success wins. An iteration
    of a quantifier ([?], [*], [*?]) that consumes nothing is rejected, as in
    ECMAScript, so [String.length rest] iterations of a star are always
    enough. *)
Fixpoint exec {R} (r : regex) (input rest : string) (cs : captures)
    (k : string -> captures -> option R) {struct r} : option R :=
  match r with
  | Bol => if at_start input rest then k rest cs else None
  | Eol => match rest with EmptyString => k rest cs | _ => None end
  | Cls p =>
      match rest with
      | String c rest' => if p c then k rest' cs else None
      | EmptyString => None
      end
  | Cat r1 r2 => exec r1 input rest cs (fun rest' cs' => exec r2 input rest' cs' k)
  | Alt r1 r2 => orelse (exec r1 input rest cs k) (exec r2 input rest cs k)
  | Opt r1 =>
      orelse
        (exec r1 input rest cs (fun rest' cs' =>
           if Nat.ltb (String.length rest') (String.length rest) then k rest' cs' else None))
        (k rest cs)
  | Star greedy r1 =>
      (fix loop (n : nat) (rest : string) (cs : captures) {struct n} : option R :=
         match n with
         | O => k rest cs
         | S n' =>
             let again :=
               exec r1 input rest cs (fun rest' cs' =>
                 if Nat.ltb (String.length rest') (String.length rest)
                 then loop n' rest' cs' else None) in
             if greedy then orelse again (k rest cs) else orelse (k rest cs) again
         end) (String.length rest) rest cs
  | Grp name r1 =>
      exec r1 input rest cs (fun rest' cs' => k rest' ((name, consumed rest rest') :: cs'))
  end.

(** [String.prototype.match] with a regular expression without flags: the
    leftmost start position at which the expression matches. *)
Fixpoint search (r : regex) (input rest : string) : option captures :=
  match exec r input rest [] (fun _ cs => Some cs) with
  | Some cs => Some cs
  | None =>
      match rest with
      | EmptyString => None
      | String _ rest' => search r input rest'
      end
  end.

Definition match_ (input : string) (r : regex) : option captures :=
  search r input input.

End Regex.

(** ** Character classes *)

Definition in_range (lo hi c : ascii) : bool :=
  ((nat_of_ascii lo <=? nat_of_ascii c) && (nat_of_ascii c <=? nat_of_ascii hi))%nat.

Definition is_digit : ascii -> bool := in_range "0" "9".

(** [\w] *)
Definition is_word (c : ascii) : bool :=
  in_range "a" "z" c || in_range "A" "Z" c || is_digit c || Ascii.eqb c "_".

(** [.]: everything but a line terminator. *)
Definition is_dot (c : ascii) : bool :=
  negb (Ascii.eqb c "010" || Ascii.eqb c "013").

(** ** The URL pattern (index.js, lines 24-31) *)

(** Modelled from the spec: [regexMerge] lives in [./support], which is not
    part of the sources at hand. The spec describes the compound pattern as
    its segments "combined left-to-right, anchored at both ends": the merge
    is the concatenation of its arguments, in order, without flags. *)
Fixpoint regexMerge (parts : list Regex.regex) : Regex.regex :=
  match parts with
  | [] => Regex.Eps
  | [r] => r
  | r :: rs => Regex.Cat r (regexMerge rs)
  end.

Section Pattern.
Import Regex.

(** [/^(?<base>https:\/\/[\w\.\/]+)\/screenshots?/] *)
Definition pattern_base : regex :=
  Cat Bol
    (Cat (Grp "base"
            (Cat (Lit "https://")
                 (Plus (Cls (fun c => is_word c || Ascii.eqb c "." || Ascii.eqb c "/")))))
         (Cat (Lit "/screenshot") (Opt (Chr "s")))).

(** [/(?:\/(?<width>[0-9]+)x(?<height>[0-9]+))?/] *)
Definition pattern_size : regex :=
  Opt (Cat (Chr "/")
        (Cat (Grp "width" (Plus (Cls is_digit)))
           (Cat (Chr "x") (Grp "height" (Plus (Cls is_digit)))))).

(** [/(?<path>\/.*?)/] *)
Definition pattern_path : regex :=
  Grp "path" (Cat (Chr "/") (Star false (Cls is_dot))).

(** [/(?:@(?<scale>[2-4])x)?/] *)
Definition pattern_scale : regex :=
  Opt (Cat (Chr "@") (Cat (Grp "scale" (Cls (in_range "2" "4"))) (Chr "x"))).

(** [/(?:\.(?<format>(pdf|png)))?/]; the inner group is numbered, not
    named, and does not show in [groups]. *)
Definition pattern_format : regex :=
  Opt (Cat (Chr ".") (Grp "format" (Alt (Lit "pdf") (Lit "png")))).

(** The optional query, a question mark and the rest of the line, then [$]. *)
Definition pattern_query : regex :=
  Cat (Opt (Grp "query" (Cat (Chr "?") (Star true (Cls is_dot))))) Eol.

Definition pattern : regex :=
  regexMerge
    [pattern_base; pattern_size; pattern_path; pattern_scale; pattern_format; pattern_query].
End Pattern.

(** ** JavaScript values that occur in the settings *)

Inductive number : Type :=
| NaN
| Num (n : Z)
| Infinity.

(** A string or a number, as in [settings.width ?? defaults.width]. *)
Inductive value : Type :=
| VStr (s : string)
| VNum (n : Z).

Definition digit_value (c : ascii) : Z :=
  Z.of_nat (nat_of_ascii c) - Z.of_nat (nat_of_ascii "0").

(** The value of the longest prefix of decimal digits, if there is a digit. *)
Fixpoint parse_digits (s : string) (acc : option Z) : option Z :=
  match s with
  | String c s' =>
      if is_digit c
      then parse_digits s' (Some (10 * default 0 acc + digit_value c))
      else acc
  | EmptyString => acc
  end.

(** [ToString] of an integral number. *)
Definition ToString (n : Z) : string := pretty n.

(** The double nearest to a natural number, ties to even: the number itself
    below 2^53; above, its 53 leading bits, rounded; [Infinity] for what
    rounds to 2^1024 or lies beyond. *)
Definition to_double (n : Z) : number :=
  if n <? 2 ^ 53 then Num n
  else
    let e := Z.log2 n - 52 in
    let q := n / 2 ^ e in
    let r := n mod 2 ^ e in
    let half := 2 ^ (e - 1) in
    let q' := if (half <? r) || ((r =? half) && Z.odd q) then q + 1 else q in
    if q' * 2 ^ e <? 2 ^ 1024 then Num (q' * 2 ^ e) else Infinity.

(** [parseInt] without a radix, on the arguments it gets here: a string of
    decimal digits captured by [pattern], or a default, which is a number
    and is converted to a string first. The value of the digits is rounded
    to a double. (An engine may also replace the digits after the twentieth
    by zeros before it rounds; up to twenty digits nothing is left open.) *)
Definition parseInt (v : value) : number :=
  let s := match v with VStr s => s | VNum n => ToString n end in
  match parse_digits s None with
  | Some n => to_double n
  | None => NaN
  end.

(** [a ?? b] *)
Definition nullish {A} (a : option A) (b : A) : A := default b a.

(** Truthiness of a string that may be [undefined] or [null]. *)
Definition truthy (s : option string) : bool :=
  match s with
  | Some s => negb (String.eqb s "")
  | None => false
  end.

(** [replace] of a leading question mark by the empty string. *)
Definition strip_question (s : string) : string :=
  match s with
  | String "?" s' => s'
  | _ => s
  end.

(** [s.split("&")]: the pieces between the separators; the empty string
    splits into one empty piece. *)
Fixpoint split_amp (s : string) : list string :=
  match s with
  | EmptyString => [""]
  | String c s' =>
      if Ascii.eqb c "&" then "" :: split_amp s'
      else match split_amp s' with
           | piece :: pieces => String c piece :: pieces
           | [] => [String c ""]
           end
  end.

(** [xs.join(sep)] *)
Fixpoint join (sep : string) (xs : list string) : string :=
  match xs with
  | [] => ""
  | [x] => x
  | x :: xs' => x ++ sep ++ join sep xs'
  end.

(** ** Settings (index.js, lines 33-70) *)

(** [match(pattern).groups]: one property per named group, [undefined]
    ([None]) when the group took no part in the match. *)
Record groups : Type := Groups {
  g_base : option string;
  g_width : option string;
  g_height : option string;
  g_path : option string;
  g_scale : option string;
  g_format : option string;
  g_query : option string;
}.

Definition groups_of (cs : Regex.captures) : groups :=
  {| g_base := Regex.lookup_group "base" cs;
     g_width := Regex.lookup_group "width" cs;
     g_height := Regex.lookup_group "height" cs;
     g_path := Regex.lookup_group "path" cs;
     g_scale := Regex.lookup_group "scale" cs;
     g_format := Regex.lookup_group "format" cs;
     g_query := Regex.lookup_group "query" cs |}.

Record Defaults : Type := {
  d_format : string;
  d_width : Z;
  d_height : Z;
  d_maxage : Z;
  d_scale : Z;
}.

Definition defaults : Defaults :=
  {| d_format := "png";
     d_width := 1200;
     d_height := 630;
     d_maxage := 60 * 60 * 24 * 7;
     d_scale := 1 |}.

Definition KEEP_BROWSER_ALIVE_IN_SECONDS : Z := 60.

(** The bindings of the worker that the code reads. *)
Record Env : Type := {
  QUERY_PARAMS : option string;
  CF_ACCESS_CLIENT_ID : option string;
  CF_ACCESS_CLIENT_SECRET : option string;
}.

(** The destructured object of lines 54-61: the defaults, overridden by the
    groups, overridden by the four resolved fields. [base] and [path] come
    from the groups alone, [maxage] from the defaults alone. *)
Record Settings : Type := {
  base : option string;
  format : string;
  path : option string;
  width : number;
  height : number;
  maxage : Z;
  scale : number;
}.

Definition resolve (settings : groups) : Settings :=
  {| base := g_base settings;
     format := nullish (g_format settings) (d_format defaults);
     path := g_path settings;
     width := parseInt (nullish (VStr <$> g_width settings) (VNum (d_width defaults)));
     height := parseInt (nullish (VStr <$> g_height settings) (VNum (d_height defaults)));
     maxage := d_maxage defaults;
     scale := parseInt (nullish (VStr <$> g_scale settings) (VNum (d_scale defaults))) |}.

(** Lines 63-66. *)
Definition params_of (env : Env) (settings : groups) : list string :=
  (if truthy (g_query settings)
   then split_amp (strip_question (default "" (g_query settings))) else [])
  ++
  (if truthy (QUERY_PARAMS env)
   then split_amp (strip_question (default "" (QUERY_PARAMS env))) else []).

(** Line 68: an array is truthy, empty or not, so the first branch is the
    one taken. *)
Definition array_truthy {A} (xs : list A) : bool := true.

Definition query_of (params : list string) : option string :=
  if array_truthy params then Some ("?" ++ join "&" params) else None.

(** Line 70: [[base, path, query].filter(x => x).join("")]. *)
Definition target_url (s : Settings) (query : option string) : string :=
  join "" (omap (fun x : option string => if truthy x then x else None)
             [base s; path s; query]).

(** The [url] that [Browser.fetch] navigates to, from the groups of a match. *)
Definition url_of (env : Env) (settings : groups) : string :=
  target_url (resolve settings) (query_of (params_of env settings)).

Definition match_pattern (url : string) : option groups :=
  groups_of <$> Regex.match_ url pattern.


(** ** Collaborators: rendering engine, alarm storage, cache, clock *)

Definition handle := nat.
Definition context := nat.
Definition page := nat.
Definition bytes := string.

Inductive exn : Type :=
| TypeError (msg : string)     (* raised by the language itself *)
| EngineError (msg : string).  (* raised by a collaborator *)

Definition exn_to_string (e : exn) : string :=
  match e with
  | TypeError msg => "TypeError: " ++ msg
  | EngineError msg => "Error: " ++ msg
  end.

(** How a call completes. *)
Inductive completion (A : Type) : Type :=
| Normal (a : A)
| Throw (e : exn).
Arguments Normal {A} a.
Arguments Throw {A} e.

(** [new Response(body, { headers })]; the status is the default one. *)
Record Response : Type := {
  status : Z;
  headers : list (string * string);
  body : bytes;
}.

Inductive event : Type :=
| CacheMatch (key : string)
| CachePut (key : string) (r : Response)
| StubFetch (url : string)
| Log (msg : string)
| Launch
| IsConnected (b : handle)
| CreateIncognitoBrowserContext (b : handle)
| NewPage (c : context)
| SetExtraHTTPHeaders (p : page) (hs : list (string * string))
| SetViewport (p : page) (w h deviceScaleFactor : number)
| Goto (p : page) (url : string)
| Pdf (p : page)
| Screenshot (p : page) (w h : number)
| PageClose (p : page)
| ContextClose (c : context)
| BrowserClose (b : handle)
| GetAlarm
| SetAlarm (t : Z).

(** What the collaborators answer during one invocation of a handler. The
    engine is opaque: each of its operations may complete or throw. The clock
    is read by the number of readings taken so far. *)
Record Host : Type := {
  launch : completion handle;
  isConnected : handle -> bool;
  createIncognitoBrowserContext : handle -> completion context;
  newPage : context -> completion page;
  setExtraHTTPHeaders : page -> list (string * string) -> completion unit;
  setViewport : page -> number -> number -> number -> completion unit;
  goto : page -> string -> completion unit;
  pdf : page -> completion bytes;
  screenshot : page -> number -> number -> completion bytes;
  page_close : page -> completion unit;
  context_close : context -> completion unit;
  browser_close : handle -> completion unit;
  Date_now : nat -> Z;
  toUTCString : Z -> string;
}.

(** The durable object's fields, its alarm slot, the cache and the clock. *)
Record World : Type := {
  browser : option handle;            (* this.browser *)
  keptAliveInSeconds : Z;             (* this.keptAliveInSeconds *)
  storedAlarm : option Z;             (* this.storage: the pending alarm, in ms *)
  cache : gmap string Response;       (* caches.default *)
  clockReads : nat;                   (* readings of Date.now() so far *)
}.

Definition set_browser (b : option handle) (w : World) : World :=
  {| browser := b; keptAliveInSeconds := keptAliveInSeconds w;
     storedAlarm := storedAlarm w; cache := cache w; clockReads := clockReads w |}.

Definition set_keptAliveInSeconds (n : Z) (w : World) : World :=
  {| browser := browser w; keptAliveInSeconds := n;
     storedAlarm := storedAlarm w; cache := cache w; clockReads := clockReads w |}.

Definition set_storedAlarm (a : option Z) (w : World) : World :=
  {| browser := browser w; keptAliveInSeconds := keptAliveInSeconds w;
     storedAlarm := a; cache := cache w; clockReads := clockReads w |}.

Definition set_cache (c : gmap string Response) (w : World) : World :=
  {| browser := browser w; keptAliveInSeconds := keptAliveInSeconds w;
     storedAlarm := storedAlarm w; cache := c; clockReads := clockReads w |}.

Definition set_clockReads (n : nat) (w : World) : World :=
  {| browser := browser w; keptAliveInSeconds := keptAliveInSeconds w;
     storedAlarm := storedAlarm w; cache := cache w; clockReads := n |}.

(** ** The monad of handlers: state, exceptions and a trace of calls *)

Definition M (A : Type) : Type := World -> completion A * World * list event.

Definition ret {A} (a : A) : M A := fun w => (Normal a, w, []).

Definition bind {A B} (m : M A) (f : A -> M B) : M B :=
  fun w =>
    match m w with
    | (Normal a, w1, t1) =>
        match f a w1 with
        | (r, w2, t2) => (r, w2, (t1 ++ t2)%list)
        end
    | (Throw e, w1, t1) => (Throw e, w1, t1)
    end.

Definition throw {A} (e : exn) : M A := fun w => (Throw e, w, []).

(** [try { m } catch (e) { handler e }] *)
Definition try_catch {A} (m : M A) (handler : exn -> M A) : M A :=
  fun w =>
    match m w with
    | (Normal a, w1, t1) => (Normal a, w1, t1)
    | (Throw e, w1, t1) =>
        match handler e w1 with
        | (r, w2, t2) => (r, w2, (t1 ++ t2)%list)
        end
    end.

Notation "x <- m ;; k" := (bind m (fun x => k))
  (at level 100, m at next level, right associativity).
Notation "m ;;; k" := (bind m (fun _ => k))
  (at level 100, right associativity).

(** A call to a collaborator: it is recorded, then completes as the host says. *)
Definition call {A} (ev : event) (r : completion A) : M A :=
  fun w => (r, w, [ev]).

Definition log (msg : string) : M unit := call (Log msg) (Normal tt).

Definition get {A} (f : World -> A) : M A := fun w => (Normal (f w), w, []).
Definition modify (f : World -> World) : M unit := fun w => (Normal tt, f w, []).

(** [Date.now()] *)
Definition now (H : Host) : M Z :=
  fun w => (Normal (Date_now H (clockReads w)), set_clockReads (S (clockReads w)) w, []).

(** [this.storage.getAlarm()] and [this.storage.setAlarm(t)] *)
Definition getAlarm : M (option Z) :=
  fun w => (Normal (storedAlarm w), w, [GetAlarm]).
Definition setAlarm (t : Z) : M unit :=
  fun w => (Normal tt, set_storedAlarm (Some t) w, [SetAlarm t]).

(** ** The durable object (index.js, lines 43-151) *)

Module Browser.

(** The constructor: no browser yet, nothing counted. *)
Definition constructor (w : World) : World :=
  set_keptAliveInSeconds 0 (set_browser None w).

(** Line 52: [request.url.match(pattern).groups]; reading [groups] of the
    [null] that a failed match returns throws. *)
Definition read_settings (url : string) : M groups :=
  match match_pattern url with
  | Some settings => ret settings
  | None => throw (TypeError "Cannot read properties of null (reading 'groups')")
  end.

(** Lines 72-81: start an instance unless a connected one is at hand. A
    failed launch is caught and logged; [this.browser] keeps its value. *)
Definition acquire (H : Host) : M unit :=
  b <- get browser ;;
  stale <- match b with
           | None => ret true
           | Some h => connected <- call (IsConnected h) (Normal (isConnected H h)) ;;
                       ret (negb connected)
           end ;;
  if stale : bool then
    log "Browser DO: Starting new instance" ;;;
    try_catch
      (h <- call Launch (launch H) ;;
       modify (set_browser (Some h)))
      (fun e => log ("Browser DO: Could not start browser instance. Error: " ++ exn_to_string e))
  else ret tt.

(** Lines 86-110: context, page, headers, viewport, navigation, capture,
    then the two closes. Reading a method of an absent [this.browser] throws. *)
Definition render (H : Host) (env : Env) (s : Settings) (url : string) : M bytes :=
  b <- get browser ;;
  context <- match b with
             | Some h => call (CreateIncognitoBrowserContext h) (createIncognitoBrowserContext H h)
             | None => throw (TypeError
                 "Cannot read properties of undefined (reading 'createIncognitoBrowserContext')")
             end ;;
  page <- call (NewPage context) (newPage H context) ;;
  (if truthy (CF_ACCESS_CLIENT_ID env) && truthy (CF_ACCESS_CLIENT_SECRET env) then
     let hs := [("CF-Access-Client-Id", default "" (CF_ACCESS_CLIENT_ID env));
                ("CF-Access-Client-Secret", default "" (CF_ACCESS_CLIENT_SECRET env))] in
     call (SetExtraHTTPHeaders page hs) (setExtraHTTPHeaders H page hs)
   else ret tt) ;;;
  call (SetViewport page (width s) (height s) (scale s))
       (setViewport H page (width s) (height s) (scale s)) ;;;
  call (Goto page url) (goto H page url) ;;;
  screenshot <- (if String.eqb (format s) "pdf"
                 then call (Pdf page) (pdf H page)
                 else call (Screenshot page (width s) (height s))
                           (screenshot H page (width s) (height s))) ;;
  call (PageClose page) (page_close H page) ;;;
  call (ContextClose context) (context_close H context) ;;;
  ret screenshot.

(** Lines 115-122: set the first alarm, if none is pending. *)
Definition arm (H : Host) : M unit :=
  currentAlarm <- getAlarm ;;
  match currentAlarm with
  | None =>
      log "Browser DO: setting alarm" ;;;
      let TEN_SECONDS := 10 * 1000 in
      t <- now H ;;
      setAlarm (t + TEN_SECONDS)
  | Some _ => ret tt
  end.

(** Lines 124-130. *)
Definition respond (H : Host) (s : Settings) (screenshot : bytes) : M Response :=
  t <- now H ;;
  ret {| status := 200;
         headers :=
           [("Cache-Control", "public, max-age=" ++ ToString (maxage s));
            ("Content-Type",
              if String.eqb (format s) "pdf" then "application/pdf" else "image/" ++ format s);
            ("Expires", toUTCString H (t + maxage s * 1000))];
         body := screenshot |}.

(** Lines 112-130, what follows the render: the counter is reset (line 113),
    the alarm armed, the response built. *)
Definition finish (H : Host) (s : Settings) (screenshot : bytes) : M Response :=
  modify (set_keptAliveInSeconds 0) ;;;
  arm H ;;;
  respond H s screenshot.

(** Lines 51-131: the settings, the browser, the first reset of the counter
    (line 84), the render, then what follows it. *)
Definition fetch (H : Host) (env : Env) (url : string) : M Response :=
  settings <- read_settings url ;;
  let s := resolve settings in
  let url := url_of env settings in
  acquire H ;;;
  modify (set_keptAliveInSeconds 0) ;;;
  screenshot <- render H env s url ;;
  finish H s screenshot.

(** Lines 133-150. *)
Definition alarm (H : Host) : M unit :=
  modify (fun w => set_keptAliveInSeconds (keptAliveInSeconds w + 10) w) ;;;
  kept <- get keptAliveInSeconds ;;
  if kept <? KEEP_BROWSER_ALIVE_IN_SECONDS then
    log ("Browser DO: has been kept alive for " ++ ToString kept
         ++ " seconds. Extending lifespan.") ;;;
    t <- now H ;;
    setAlarm (t + 10 * 1000)
  else
    log ("Browser DO: exceeded life of " ++ ToString KEEP_BROWSER_ALIVE_IN_SECONDS ++ "s.") ;;;
    b <- get browser ;;
    match b with
    | Some h =>
        log "Closing browser." ;;;
        call (BrowserClose h) (browser_close H h)
    | None => ret tt
    end.

End Browser.

(** The runtime delivers a due alarm: the slot is emptied, then the handler runs. *)
Definition deliver_alarm (H : Host) : M unit :=
  modify (set_storedAlarm None) ;;;
  Browser.alarm H.

(** An invocation of another handler on the same object while this one
    waits: its effects on the object are seen, what it throws is its own. *)
Definition background (m : M unit) : M unit :=
  fun w => match m w with (_, w', t) => (Normal tt, w', t) end.

(** The alarms delivered while a request waits, one host per delivery. *)
Fixpoint ticks_during (Hs : list Host) : M unit :=
  match Hs with
  | [] => ret tt
  | H :: Hs' => background (deliver_alarm H) ;;; ticks_during Hs'
  end.

(** [Browser.fetch] with alarms delivered while it awaits the engine (the
    [await]s of lines 86 to 110). Between line 84 and line 113 the request
    reads [this.browser], at once, and then none of the object's fields, and
    [alarm] assigns the counter and the alarm slot only: for the fields it
    makes no difference at which of these [await]s a delivery falls, nor
    whether the render throws after it, and the deliveries are run after
    line 84. Their events come before the render's in the trace, which says
    nothing about the order in time. *)
Definition fetch_during (H : Host) (env : Env) (url : string) (ticks : list Host)
  : M Response :=
  settings <- Browser.read_settings url ;;
  let s := resolve settings in
  let url := url_of env settings in
  Browser.acquire H ;;;
  modify (set_keptAliveInSeconds 0) ;;;
  ticks_during ticks ;;;
  screenshot <- Browser.render H env s url ;;
  Browser.finish H s screenshot.

(** ** The worker's handler (index.js, lines 4-22) *)

Module Worker.

(** [cache.match(key)] and [cache.put(key, response)]. The cache is the map
    of what was put. The platform's cache also drops entries, after their
    [max-age] or before: that is not modelled, and what is said of a hit is
    said of an entry that is still held. *)
Definition cache_match (key : string) : M (option Response) :=
  fun w => (Normal (cache w !! key), w, [CacheMatch key]).
Definition cache_put (key : string) (r : Response) : M unit :=
  fun w => (Normal tt, set_cache (<[key := r]> (cache w)) w, [CachePut key r]).

(** [env.BROWSER.get(env.BROWSER.idFromName(...)).fetch(url)]: the call
    reaches the one durable object, whose [request.url] is taken to be the
    string passed; what it throws, the caller's [await] throws. *)
Definition stub_fetch (H : Host) (env : Env) (url : string) : M Response :=
  call (StubFetch url) (Normal tt) ;;;
  Browser.fetch H env url.

(** [response.clone()] *)
Definition clone (r : Response) : Response := r.

(** [ctx.waitUntil(promise)]: the handler does not await the promise, the
    runtime carries it to its end. Its effect is accounted to the invocation
    that started it; when the put lands relative to the handler's return is
    not modelled. *)
Definition waitUntil (m : M unit) : M unit := m.

Definition fetch (H : Host) (env : Env) (url : string) : M Response :=
  screenshot <- cache_match url ;;
  match screenshot with
  | Some cached => ret cached
  | None =>
      response <- stub_fetch H env url ;;
      waitUntil (cache_put url (clone response)) ;;;
      ret response
  end.

End Worker.

(** The status the runtime answers with: the response's own, or 500 when the
    handler throws. *)
Definition answered_status (r : completion Response) : Z :=
  match r with
  | Normal response => status response
  | Throw _ => 500
  end.

(** ** The forwarded access headers (index.js, lines 90-95) *)

(** The two headers, with the configured values. *)
Definition access_headers (env : Env) : list (string * string) :=
  [("CF-Access-Client-Id", default "" (CF_ACCESS_CLIENT_ID env));
   ("CF-Access-Client-Secret", default "" (CF_ACCESS_CLIENT_SECRET env))].

(** The guard of line 90. *)
Definition both_set (env : Env) : bool :=
  truthy (CF_ACCESS_CLIENT_ID env) && truthy (CF_ACCESS_CLIENT_SECRET env).

(** ** Reading traces *)

Definition is_SetAlarm (e : event) : bool :=
  match e with SetAlarm _ => true | _ => false end.

Definition is_BrowserClose (e : event) : bool :=
  match e with BrowserClose _ => true | _ => false end.

Definition is_close (e : event) : bool :=
  match e with PageClose _ | ContextClose _ => true | _ => false end.

Definition is_CachePut (e : event) : bool :=
  match e with CachePut _ _ => true | _ => false end.

Definition is_SetExtraHTTPHeaders (e : event) : bool :=
  match e with SetExtraHTTPHeaders _ _ => true | _ => false end.

(** A call into the rendering engine. *)
Definition is_engine_call (e : event) : bool :=
  match e with
  | Launch | IsConnected _ | CreateIncognitoBrowserContext _ | NewPage _
  | SetExtraHTTPHeaders _ _ | SetViewport _ _ _ _ | Goto _ _ | Pdf _
  | Screenshot _ _ _ | PageClose _ | ContextClose _ | BrowserClose _ => true
  | CacheMatch _ | CachePut _ _ | StubFetch _ | Log _ | GetAlarm | SetAlarm _ => false
  end.

(** What acquiring a browser may call. *)
Definition is_acquire_event (e : event) : bool :=
  match e with Log _ | IsConnected _ | Launch => true | _ => false end.

(** Successive alarms with nothing in between, one host per delivery. *)
Fixpoint idle_ticks (Hs : list Host) : M unit :=
  match Hs with
  | [] => ret tt
  | H :: Hs' => deliver_alarm H ;;; idle_ticks Hs'
  end.

(** ** Sample collaborators and inputs *)

(** An engine on which every operation completes. *)
Definition host_ok : Host :=
  {| launch := Normal 1%nat;
     isConnected := fun _ => true;
     createIncognitoBrowserContext := fun _ => Normal 2%nat;
     newPage := fun _ => Normal 3%nat;
     setExtraHTTPHeaders := fun _ _ => Normal tt;
     setViewport := fun _ _ _ _ => Normal tt;
     goto := fun _ _ => Normal tt;
     pdf := fun _ => Normal "%PDF";
     screenshot := fun _ _ _ => Normal "PNG";
     page_close := fun _ => Normal tt;
     context_close := fun _ => Normal tt;
     browser_close := fun _ => Normal tt;
     Date_now := fun n => 1000000 + Z.of_nat n;
     toUTCString := ToString |}.

(** The same engine, except that it cannot be launched. *)
Definition host_launch_fails : Host :=
  {| launch := Throw (EngineError "no browser available");
     isConnected := isConnected host_ok;
     createIncognitoBrowserContext := createIncognitoBrowserContext host_ok;
     newPage := newPage host_ok;
     setExtraHTTPHeaders := setExtraHTTPHeaders host_ok;
     setViewport := setViewport host_ok;
     goto := goto host_ok;
     pdf := pdf host_ok;
     screenshot := screenshot host_ok;
     page_close := page_close host_ok;
     context_close := context_close host_ok;
     browser_close := browser_close host_ok;
     Date_now := Date_now host_ok;
     toUTCString := toUTCString host_ok |}.

(** The same engine, except that navigation fails. *)
Definition host_goto_fails : Host :=
  {| launch := launch host_ok;
     isConnected := isConnected host_ok;
     createIncognitoBrowserContext := createIncognitoBrowserContext host_ok;
     newPage := newPage host_ok;
     setExtraHTTPHeaders := setExtraHTTPHeaders host_ok;
     setViewport := setViewport host_ok;
     goto := fun _ _ => Throw (EngineError "net::ERR_NAME_NOT_RESOLVED");
     pdf := pdf host_ok;
     screenshot := screenshot host_ok;
     page_close := page_close host_ok;
     context_close := context_close host_ok;
     browser_close := browser_close host_ok;
     Date_now := Date_now host_ok;
     toUTCString := toUTCString host_ok |}.

(** The same engine, except that the raster capture fails. *)
Definition host_capture_fails : Host :=
  {| launch := launch host_ok;
     isConnected := isConnected host_ok;
     createIncognitoBrowserContext := createIncognitoBrowserContext host_ok;
     newPage := newPage host_ok;
     setExtraHTTPHeaders := setExtraHTTPHeaders host_ok;
     setViewport := setViewport host_ok;
     goto := goto host_ok;
     pdf := pdf host_ok;
     screenshot := fun _ _ _ => Throw (EngineError "Protocol error (Page.captureScreenshot)");
     page_close := page_close host_ok;
     context_close := context_close host_ok;
     browser_close := browser_close host_ok;
     Date_now := Date_now host_ok;
     toUTCString := toUTCString host_ok |}.

Definition env_plain : Env :=
  {| QUERY_PARAMS := None; CF_ACCESS_CLIENT_ID := None; CF_ACCESS_CLIENT_SECRET := None |}.

Definition env_access : Env :=
  {| QUERY_PARAMS := None;
     CF_ACCESS_CLIENT_ID := Some "id.access";
     CF_ACCESS_CLIENT_SECRET := Some "s3cret" |}.

Definition env_id_only : Env :=
  {| QUERY_PARAMS := None;
     CF_ACCESS_CLIENT_ID := Some "id.access";
     CF_ACCESS_CLIENT_SECRET := None |}.

(** A durable object just constructed, an empty alarm slot and an empty cache. *)
Definition fresh : World :=
  {| browser := None; keptAliveInSeconds := 0; storedAlarm := None;
     cache := ∅; clockReads := 0 |}.

Definition url_example : string :=
  "https://example.com/screenshot/600x400/foo/bar@2x.pdf?x=1".
Definition url_defaults : string := "https://example.com/screenshots/bar".
Definition url_malformed : string := "https://example.com/notscreenshot/bar".

(** The groups of the matches of [url_example] and [url_defaults]. *)
Definition settings_example : groups :=
  {| g_base := Some "https://example.com"; g_width := Some "600"; g_height := Some "400";
     g_path := Some "/foo/bar"; g_scale := Some "2"; g_format := Some "pdf";
     g_query := Some "?x=1" |}.

Definition settings_defaults : groups :=
  {| g_base := Some "https://example.com"; g_width := None; g_height := None;
     g_path := Some "/bar"; g_scale := None; g_format := None; g_query := None |}.

Definition cached_png : Response :=
  {| status := 200;
     headers := [("Cache-Control", "public, max-age=604800"); ("Content-Type", "image/png")];
     body := "PNG (cached)" |}.

Definition fst3 {A B C} (x : A * B * C) : A := fst (fst x).
Definition snd3 {A B C} (x : A * B * C) : B := snd (fst x).
Definition thd3 {A B C} (x : A * B * C) : C := snd x.

(** ** Outcomes of [Browser.fetch] *)

(** The three ways a call of [Browser.fetch] can go. *)
Inductive fetch_run (H : Host) (env : Env) (url : string) (w : World)
  : completion Response -> World -> list event -> Prop :=
| Run_no_match :
    match_pattern url = None ->
    fetch_run H env url w
      (Throw (TypeError "Cannot read properties of null (reading 'groups')")) w []
| Run_render_throws settings b ta e tr :
    match_pattern url = Some settings ->
    Browser.acquire H w = (Normal tt, set_browser b w, ta) ->
    Browser.render H env (resolve settings) (url_of env settings)
      (set_keptAliveInSeconds 0 (set_browser b w))
      = (Throw e, set_keptAliveInSeconds 0 (set_browser b w), tr) ->
    fetch_run H env url w
      (Throw e) (set_keptAliveInSeconds 0 (set_browser b w)) (ta ++ tr)
| Run_rendered settings b ta shot tr response :
    match_pattern url = Some settings ->
    Browser.acquire H w = (Normal tt, set_browser b w, ta) ->
    Browser.render H env (resolve settings) (url_of env settings)
      (set_keptAliveInSeconds 0 (set_browser b w))
      = (Normal shot, set_keptAliveInSeconds 0 (set_browser b w), tr) ->
    body response = shot ->
    status response = 200 ->
    let w1 := set_keptAliveInSeconds 0 (set_browser b w) in
    fetch_run H env url w
      (Normal response)
      (set_clockReads (S (clockReads (snd3 (Browser.arm H w1)))) (snd3 (Browser.arm H w1)))
      (ta ++ tr ++ thd3 (Browser.arm H w1)).


(** The loop that [Regex.exec] runs for a star, by name. *)
Definition star_loop {R} (greedy : bool) (r1 : Regex.regex) (input : string)
    (k : string -> Regex.captures -> option R)
  : nat -> string -> Regex.captures -> option R :=
  fix loop (n : nat) (rest : string) (cs : Regex.captures) {struct n} : option R :=
    match n with
    | O => k rest cs
    | S n' =>
        let again :=
          Regex.exec r1 input rest cs (fun rest' cs' =>
            if Nat.ltb (String.length rest') (String.length rest)
            then loop n' rest' cs' else None) in
        if greedy then Regex.orelse again (k rest cs) else Regex.orelse (k rest cs) again
    end.

(** ** The pattern, declaratively *)

(** [Match input r rest cs rest' cs']: [r] can consume the text between the
    suffixes [rest] and [rest'] of [input], turning the captures [cs] into
    [cs']. Iterations of a quantifier consume something. *)
Inductive Match (input : string)
  : Regex.regex -> string -> Regex.captures -> string -> Regex.captures -> Prop :=
| Match_Bol rest cs :
    Regex.at_start input rest = true -> Match input Regex.Bol rest cs rest cs
| Match_Eol cs : Match input Regex.Eol "" cs "" cs
| Match_Cls (p : ascii -> bool) c rest cs :
    p c = true -> Match input (Regex.Cls p) (String c rest) cs rest cs
| Match_Cat r1 r2 rest cs rest1 cs1 rest2 cs2 :
    Match input r1 rest cs rest1 cs1 -> Match input r2 rest1 cs1 rest2 cs2 ->
    Match input (Regex.Cat r1 r2) rest cs rest2 cs2
| Match_Alt_l r1 r2 rest cs rest' cs' :
    Match input r1 rest cs rest' cs' -> Match input (Regex.Alt r1 r2) rest cs rest' cs'
| Match_Alt_r r1 r2 rest cs rest' cs' :
    Match input r2 rest cs rest' cs' -> Match input (Regex.Alt r1 r2) rest cs rest' cs'
| Match_Opt_some r rest cs rest' cs' :
    Match input r rest cs rest' cs' ->
    (String.length rest' < String.length rest)%nat ->
    Match input (Regex.Opt r) rest cs rest' cs'
| Match_Opt_none r rest cs : Match input (Regex.Opt r) rest cs rest cs
| Match_Star_stop greedy r rest cs : Match input (Regex.Star greedy r) rest cs rest cs
| Match_Star_step greedy r rest cs rest1 cs1 rest2 cs2 :
    Match input r rest cs rest1 cs1 ->
    (String.length rest1 < String.length rest)%nat ->
    Match input (Regex.Star greedy r) rest1 cs1 rest2 cs2 ->
    Match input (Regex.Star greedy r) rest cs rest2 cs2
| Match_Grp name r rest cs rest' cs' :
    Match input r rest cs rest' cs' ->
    Match input (Regex.Grp name r) rest cs rest' ((name, Regex.consumed rest rest') :: cs').

(** Every character of a string is in a class. *)
Fixpoint all_chars (p : ascii -> bool) (s : string) : bool :=
  match s with
  | EmptyString => true
  | String c s' => p c && all_chars p s'
  end.

(** The class of the base, [[\w\.\/]]. *)
Definition is_base_char (c : ascii) : bool :=
  is_word c || Ascii.eqb c "." || Ascii.eqb c "/".

(** ** The shape of the groups of a match, and the URL they come from *)

Definition size_ok (g : groups) : Prop :=
  (g_width g = None /\ g_height g = None)
  \/ exists w h,
       g_width g = Some w /\ g_height g = Some h
       /\ w <> "" /\ h <> "" /\ all_chars is_digit w = true /\ all_chars is_digit h = true.

Definition scale_ok (g : groups) : Prop :=
  g_scale g = None \/ g_scale g = Some "2" \/ g_scale g = Some "3" \/ g_scale g = Some "4".

Definition format_ok (g : groups) : Prop :=
  g_format g = None \/ g_format g = Some "pdf" \/ g_format g = Some "png".

Definition query_ok (g : groups) : Prop :=
  g_query g = None \/ exists q, g_query g = Some ("?" ++ q) /\ all_chars is_dot q = true.

Definition base_ok (g : groups) : Prop :=
  exists host,
    g_base g = Some ("https://" ++ host) /\ host <> "" /\ all_chars is_base_char host = true.

Definition path_ok (g : groups) : Prop :=
  exists p, g_path g = Some ("/" ++ p) /\ all_chars is_dot p = true.

Definition well_formed (g : groups) : Prop :=
  base_ok g /\ size_ok g /\ path_ok g /\ scale_ok g /\ format_ok g /\ query_ok g.

Definition segment_size (g : groups) : string :=
  match g_width g, g_height g with
  | Some w, Some h => "/" ++ w ++ "x" ++ h
  | _, _ => ""
  end.

Definition segment_scale (g : groups) : string :=
  match g_scale g with Some s => "@" ++ s ++ "x" | None => "" end.

Definition segment_format (g : groups) : string :=
  match g_format g with Some f => "." ++ f | None => "" end.

(** The URL that has the groups [g] after the marker [marker]. *)
Definition rebuild (marker : string) (g : groups) : string :=
  default "" (g_base g) ++ marker ++ segment_size g ++ default "" (g_path g)
  ++ segment_scale g ++ segment_format g ++ default "" (g_query g).

(** The text of a query that counts: none when the string is absent or
    empty, else the string without one leading question mark. *)
Definition query_text (x : option string) : option string :=
  if truthy x then Some (strip_question (default "" x)) else None.

(** ** More readings of traces *)

Definition is_Launch (e : event) : bool :=
  match e with Launch => true | _ => false end.

(** A call on the page of a request. *)
Definition is_page_call (e : event) : bool :=
  match e with
  | SetExtraHTTPHeaders _ _ | SetViewport _ _ _ _ | Goto _ _ | Pdf _ | Screenshot _ _ _
  | PageClose _ => true
  | _ => false
  end.

(** The calls a request makes on its page [p] when nothing throws. *)
Definition page_script (env : Env) (g : groups) (p : page) : list event :=
  let s := resolve g in
  (if both_set env then [SetExtraHTTPHeaders p (access_headers env)] else [])
  ++ [SetViewport p (width s) (height s) (scale s);
      Goto p (url_of env g);
      if String.eqb (format s) "pdf" then Pdf p else Screenshot p (width s) (height s);
      PageClose p].

(** ** More sample inputs *)

(** A size of zero by zero and the largest scale. *)
Definition url_zero : string := "https://a.b/screenshot/0x0/p@4x".

Definition settings_zero : groups :=
  {| g_base := Some "https://a.b"; g_width := Some "0"; g_height := Some "0";
     g_path := Some "/p"; g_scale := Some "4"; g_format := None; g_query := None |}.

Definition env_params : Env :=
  {| QUERY_PARAMS := Some "?a=1&b=2"; CF_ACCESS_CLIENT_ID := None;
     CF_ACCESS_CLIENT_SECRET := None |}.

(** The durable object after a first render: browser 1 at hand, an alarm
    pending. *)
Definition warm : World :=
  {| browser := Some 1%nat; keptAliveInSeconds := 0; storedAlarm := Some 1010000;
     cache := ∅; clockReads := 2 |}.

(** The same, idle for fifty seconds: the next tick evicts. *)
Definition idle50 : World :=
  {| browser := Some 1%nat; keptAliveInSeconds := 50; storedAlarm := Some 1060000;
     cache := ∅; clockReads := 7 |}.

(** An engine whose old connection is gone and whose next launch gives
    browser 5. *)
Definition host_relaunch : Host :=
  {| launch := Normal 5%nat;
     isConnected := fun _ => false;
     createIncognitoBrowserContext := createIncognitoBrowserContext host_ok;
     newPage := newPage host_ok;
     setExtraHTTPHeaders := setExtraHTTPHeaders host_ok;
     setViewport := setViewport host_ok;
     goto := goto host_ok;
     pdf := pdf host_ok;
     screenshot := screenshot host_ok;
     page_close := page_close host_ok;
     context_close := context_close host_ok;
     browser_close := browser_close host_ok;
     Date_now := Date_now host_ok;
     toUTCString := toUTCString host_ok |}.

(** * Properties *)

(** ** The pattern on sample URLs *)

Example match_example : match_pattern url_example = Some settings_example.
Proof. vm_compute. reflexivity. Qed.

Example match_defaults : match_pattern url_defaults = Some settings_defaults.
Proof. vm_compute. reflexivity. Qed.

Example match_malformed : match_pattern url_malformed = None.
Proof. vm_compute. reflexivity. Qed.

(** The base is greedy: the last marker that lets the rest match is the one
    taken; the path is lazy and may be a bare slash; a scale outside 2 to 4
    stays in the path. *)
Example match_nested :
  match_pattern "https://a.b/screenshot/x/screenshots/12x3/@3x.png?"
  = Some {| g_base := Some "https://a.b/screenshot/x"; g_width := Some "12";
            g_height := Some "3"; g_path := Some "/"; g_scale := Some "3";
            g_format := Some "png"; g_query := Some "?" |}.
Proof. vm_compute. reflexivity. Qed.

Example match_scale_out_of_range :
  match_pattern "https://a.b/screenshot/p@5x"
  = Some {| g_base := Some "https://a.b"; g_width := None; g_height := None;
            g_path := Some "/p@5x"; g_scale := None; g_format := None; g_query := None |}.
Proof. vm_compute. reflexivity. Qed.

Example match_needs_https : match_pattern "http://example.com/screenshot/bar" = None.
Proof. vm_compute. reflexivity. Qed.

(** Parameters of the request come first, the configured ones after. *)
Example params_in_order :
  params_of {| QUERY_PARAMS := Some "?a=1&b=2"; CF_ACCESS_CLIENT_ID := None;
               CF_ACCESS_CLIENT_SECRET := None |} settings_example
  = ["x=1"; "a=1"; "b=2"].
Proof. vm_compute. reflexivity. Qed.

(** ** Running handlers *)

Lemma bind_inv {A B} (m : M A) (f : A -> M B) w r w' t :
  bind m f w = (r, w', t) ->
  (exists a w1 t1 t2,
      m w = (Normal a, w1, t1) /\ f a w1 = (r, w', t2) /\ t = (t1 ++ t2)%list)
  \/ (exists e, m w = (Throw e, w', t) /\ r = Throw e).
Proof.
  unfold bind. destruct (m w) as [[[a | e] w1] t1].
  - destruct (f a w1) as [[r2 w2] t2] eqn:Hf. intros [= <- <- <-].
    left. exists a, w1, t1, t2. auto.
  - intros [= <- <- <-]. right. exists e. auto.
Qed.

Ltac unfold_monad :=
  unfold bind, try_catch, call, log, call, get, modify, ret, throw, getAlarm, setAlarm, now.

(** Split on the innermost scrutinee that blocks evaluation. *)
Ltac split_next :=
  match goal with
  | |- context [match ?x with _ => _ end] =>
      lazymatch x with
      | context [match _ with _ => _ end] => fail
      | _ => destruct x eqn:?
      end
  end.

(** ** The stages of [Browser.fetch] *)

(** Acquiring always completes; it touches nothing but [this.browser]. *)
Lemma acquire_run H w :
  exists b t,
    Browser.acquire H w = (Normal tt, set_browser b w, t)
    /\ forallb is_acquire_event t = true
    /\ (b = browser w \/ exists h, launch H = Normal h /\ b = Some h).
Proof.
  unfold Browser.acquire. unfold_monad.
  destruct w as [b k a c n]; simpl.
  destruct b as [h |]; simpl.
  - destruct (isConnected H h); simpl.
    + exists (Some h). eexists. split; [reflexivity | split; [reflexivity | now left]].
    + destruct (launch H) as [h' | e] eqn:Hl; simpl.
      * exists (Some h'). eexists. split; [reflexivity | split; [reflexivity |]].
        right. now exists h'.
      * exists (Some h). eexists. split; [reflexivity | split; [reflexivity | now left]].
  - destruct (launch H) as [h' | e] eqn:Hl; simpl.
    + exists (Some h'). eexists. split; [reflexivity | split; [reflexivity |]].
      right. now exists h'.
    + exists None. eexists. split; [reflexivity | split; [reflexivity | now left]].
Qed.

(** Rendering reads [this.browser] and talks to the engine: the world stays. *)
Lemma render_keeps_world H env s url w : snd3 (Browser.render H env s url w) = w.
Proof.
  unfold Browser.render, snd3. unfold_monad.
  repeat (simpl; split_next); reflexivity.
Qed.

(** Arming sets the alarm exactly when the slot is empty. *)
Lemma arm_run H w :
  Browser.arm H w =
    match storedAlarm w with
    | Some _ => (Normal tt, w, [GetAlarm])
    | None =>
        let t := Date_now H (clockReads w) + 10 * 1000 in
        (Normal tt,
         set_storedAlarm (Some t) (set_clockReads (S (clockReads w)) w),
         [GetAlarm; Log "Browser DO: setting alarm"; SetAlarm t])
    end.
Proof.
  unfold Browser.arm. unfold_monad. simpl. now destruct (storedAlarm w).
Qed.

Lemma respond_run H s shot w :
  exists response,
    Browser.respond H s shot w = (Normal response, set_clockReads (S (clockReads w)) w, [])
    /\ body response = shot /\ status response = 200.
Proof. unfold Browser.respond. unfold_monad. simpl. eexists. split; [reflexivity | now split]. Qed.

Lemma fetch_inv H env url w r w' t :
  Browser.fetch H env url w = (r, w', t) -> fetch_run H env url w r w' t.
Proof.
  unfold Browser.fetch, Browser.finish, Browser.read_settings. intros Hrun.
  destruct (match_pattern url) as [settings |] eqn:Hm.
  - apply bind_inv in Hrun as [(g & w0 & t0 & tk1 & [= <- <- <-] & Hrun & ->) | (e & [=] & _)].
    cbv zeta in Hrun.
    destruct (acquire_run H w) as (b & ta & Ha & _ & _).
    apply bind_inv in Hrun as [([] & w1 & t1 & tk2 & Ha' & Hrun & ->) | (e & Ha' & _)];
      rewrite Ha in Ha'; [injection Ha' as <- <- | discriminate Ha'].
    apply bind_inv in Hrun as [([] & w2 & t2 & tk3 & [= <- <-] & Hrun & ->) | (e & [=] & _)].
    set (w1 := set_keptAliveInSeconds 0 (set_browser b w)) in *.
    pose proof (render_keeps_world H env (resolve settings) (url_of env settings) w1) as Hw.
    apply bind_inv in Hrun as [(shot & w3 & tr & tk4 & Hr & Hrun & ->) | (e & Hr & ->)];
      rewrite Hr in Hw; unfold snd3 in Hw; simpl in Hw; subst.
    + apply bind_inv in Hrun as [([] & w2 & t2 & tk5 & [= <- <-] & Hrun & ->) | (e & [=] & _)].
      apply bind_inv in Hrun as [([] & wa & ta' & tk6 & Harm & Hrun & ->) | (e & Harm & _)].
      change (set_keptAliveInSeconds 0 w1) with w1 in Harm.
      2: { rewrite arm_run in Harm. destruct (storedAlarm _); discriminate Harm. }
      destruct (respond_run H (resolve settings) shot wa) as (resp & Hresp & Hbody & Hstatus).
      rewrite Hresp in Hrun. injection Hrun as <- <- <-.
      pose proof (Run_rendered H env url w settings b ta shot tr resp Hm Ha Hr Hbody Hstatus) as Hfin.
      cbv zeta in Hfin. fold w1 in Hfin. rewrite Harm in Hfin. unfold snd3, thd3 in Hfin. simpl in Hfin.
      simpl. rewrite app_nil_r. exact Hfin.
    + simpl. eapply Run_render_throws; eauto.
  - unfold_monad. simpl in Hrun. injection Hrun as <- <- <-. now constructor.
Qed.

(** ** The alarm handler *)

(** A tick within the budget: the counter grows by ten, another alarm is set
    ten seconds after the clock reading, the browser is left alone. *)
Lemma alarm_extends H w :
  keptAliveInSeconds w + 10 < KEEP_BROWSER_ALIVE_IN_SECONDS ->
  exists msg,
    Browser.alarm H w =
      (Normal tt,
       set_storedAlarm (Some (Date_now H (clockReads w) + 10 * 1000))
         (set_clockReads (S (clockReads w))
            (set_keptAliveInSeconds (keptAliveInSeconds w + 10) w)),
       [Log msg; SetAlarm (Date_now H (clockReads w) + 10 * 1000)]).
Proof.
  intros Hlt. unfold Browser.alarm. unfold_monad. cbn [keptAliveInSeconds set_keptAliveInSeconds].
  apply Z.ltb_lt in Hlt. rewrite Hlt. simpl. eexists. reflexivity.
Qed.

(** A tick that exhausts the budget: the browser at hand is closed, no alarm
    is set, and the world changes in its counter only. *)
Lemma alarm_evicts H w :
  KEEP_BROWSER_ALIVE_IN_SECONDS <= keptAliveInSeconds w + 10 ->
  exists msg,
    Browser.alarm H w =
      (match browser w with Some h => browser_close H h | None => Normal tt end,
       set_keptAliveInSeconds (keptAliveInSeconds w + 10) w,
       Log msg ::
         match browser w with
         | Some h => [Log "Closing browser."; BrowserClose h]
         | None => []
         end).
Proof.
  intros Hge. unfold Browser.alarm. unfold_monad. cbn [keptAliveInSeconds set_keptAliveInSeconds].
  apply Z.ltb_ge in Hge. rewrite Hge. simpl.
  destruct (browser w) as [h |]; simpl; eexists; reflexivity.
Qed.

Lemma deliver_alarm_run H w :
  deliver_alarm H w = Browser.alarm H (set_storedAlarm None w).
Proof.
  unfold deliver_alarm. unfold_monad. simpl.
  now destruct (Browser.alarm H (set_storedAlarm None w)) as [[[[] | e] w'] t].
Qed.

(** Idle ticks that stay within the budget all extend the session. *)
Lemma idle_ticks_within_budget Hs : forall w,
  keptAliveInSeconds w + 10 * Z.of_nat (length Hs) < KEEP_BROWSER_ALIVE_IN_SECONDS ->
  exists w' t,
    idle_ticks Hs w = (Normal tt, w', t)
    /\ keptAliveInSeconds w' = keptAliveInSeconds w + 10 * Z.of_nat (length Hs)
    /\ browser w' = browser w
    /\ existsb is_BrowserClose t = false
    /\ (Hs <> [] -> exists at_, storedAlarm w' = Some at_).
Proof.
  induction Hs as [| H Hs IH]; intros w Hlt.
  - exists w, []. simpl. repeat split; try lia. congruence.
  - rewrite length_cons, Nat2Z.inj_succ in Hlt.
    destruct (alarm_extends H (set_storedAlarm None w)) as [msg Htick].
    { simpl. lia. }
    set (w1 := set_storedAlarm (Some _) _) in Htick.
    destruct (IH w1) as (w' & t & Hrun & Hkept & Hb & Hclose & Halarm).
    { subst w1. simpl. lia. }
    exists w'. eexists. split.
    { cbn [idle_ticks]. unfold bind. rewrite deliver_alarm_run, Htick, Hrun. reflexivity. }
    subst w1. cbn [keptAliveInSeconds browser set_storedAlarm set_clockReads
                     set_keptAliveInSeconds] in Hkept, Hb.
    cbn [length]. rewrite Nat2Z.inj_succ.
    split; [lia |]. split; [exact Hb |]. split; [exact Hclose |].
    intros _. destruct Hs as [| H' Hs'].
    + simpl in Hrun. injection Hrun as <- <-. simpl. eauto.
    + apply Halarm. discriminate.
Qed.

(** ** Alarms delivered during a request *)

(** What a tick does to the fields, whatever its outcome: ten more on the
    counter; the browser and the cache stay. *)
Lemma alarm_fields H w :
  keptAliveInSeconds (snd3 (Browser.alarm H w)) = keptAliveInSeconds w + 10
  /\ browser (snd3 (Browser.alarm H w)) = browser w
  /\ cache (snd3 (Browser.alarm H w)) = cache w.
Proof.
  unfold Browser.alarm, snd3. unfold_monad.
  cbn [keptAliveInSeconds set_keptAliveInSeconds].
  repeat (simpl; split_next); simpl; auto.
Qed.

Lemma ticks_during_run Hs : forall w,
  exists w' t,
    ticks_during Hs w = (Normal tt, w', t)
    /\ keptAliveInSeconds w' = keptAliveInSeconds w + 10 * Z.of_nat (length Hs)
    /\ browser w' = browser w
    /\ cache w' = cache w.
Proof.
  induction Hs as [| H Hs IH]; intros w.
  - exists w, []. simpl. repeat split; lia.
  - destruct (alarm_fields H (set_storedAlarm None w)) as (Hk & Hb & Hc).
    cbn [ticks_during]. unfold bind, background. rewrite deliver_alarm_run.
    destruct (Browser.alarm H (set_storedAlarm None w)) as [[r w1] t1].
    unfold snd3 in Hk, Hb, Hc. cbn [fst snd] in Hk, Hb, Hc.
    destruct (IH w1) as (w' & t & -> & Hk' & Hb' & Hc').
    exists w'. eexists. split; [reflexivity |].
    cbn [keptAliveInSeconds browser cache set_storedAlarm] in Hk, Hb, Hc.
    rewrite length_cons, Nat2Z.inj_succ. repeat split; [lia | congruence | congruence].
Qed.

(** What follows the render completes from any world, and resets the counter
    whatever it was. *)
Lemma finish_run H s shot w :
  exists response w' t,
    Browser.finish H s shot w = (Normal response, w', t)
    /\ keptAliveInSeconds w' = 0
    /\ browser w' = browser w
    /\ cache w' = cache w
    /\ body response = shot /\ status response = 200.
Proof.
  unfold Browser.finish, Browser.arm, Browser.respond. unfold_monad. simpl.
  destruct (storedAlarm w); simpl; do 3 eexists; (split; [reflexivity |]); simpl; auto.
Qed.

(** A request whose URL matches, with alarms delivered while it waits: the
    browser is acquired, the counter reset, the ticks counted; then the
    render throws, or what follows it runs. *)
Lemma fetch_during_run H env url ticks w settings :
  match_pattern url = Some settings ->
  exists b ta w1 tk,
    Browser.acquire H w = (Normal tt, set_browser b w, ta)
    /\ ticks_during ticks (set_keptAliveInSeconds 0 (set_browser b w)) = (Normal tt, w1, tk)
    /\ keptAliveInSeconds w1 = 10 * Z.of_nat (length ticks)
    /\ browser w1 = b
    /\ cache w1 = cache w
    /\ match Browser.render H env (resolve settings) (url_of env settings) w1 with
       | (Throw e, _, tr) =>
           fetch_during H env url ticks w = (Throw e, w1, (ta ++ tk ++ tr)%list)
       | (Normal shot, _, tr) =>
           exists response w' tf,
             Browser.finish H (resolve settings) shot w1 = (Normal response, w', tf)
             /\ fetch_during H env url ticks w
                = (Normal response, w', (ta ++ tk ++ tr ++ tf)%list)
       end.
Proof.
  intros Hm.
  destruct (acquire_run H w) as (b & ta & Ha & _ & _).
  destruct (ticks_during_run ticks (set_keptAliveInSeconds 0 (set_browser b w)))
    as (w1 & tk & Hticks & Hk & Hb & Hc).
  cbn [keptAliveInSeconds browser cache set_keptAliveInSeconds set_browser] in Hk, Hb, Hc.
  exists b, ta, w1, tk.
  split; [exact Ha |]. split; [exact Hticks |]. split; [lia |].
  split; [exact Hb |]. split; [exact Hc |].
  pose proof (render_keeps_world H env (resolve settings) (url_of env settings) w1) as Hw.
  assert (Hstart :
            fetch_during H env url ticks w
            = match Browser.render H env (resolve settings) (url_of env settings) w1 with
              | (Normal shot, w2, tr) =>
                  match Browser.finish H (resolve settings) shot w2 with
                  | (r, w', tf) => (r, w', (ta ++ tk ++ tr ++ tf)%list)
                  end
              | (Throw e, w2, tr) => (Throw e, w2, (ta ++ tk ++ tr)%list)
              end).
  { unfold fetch_during, Browser.read_settings. rewrite Hm.
    unfold bind, ret, modify. cbv beta iota zeta. rewrite Ha. cbv beta iota.
    rewrite Hticks. cbv beta iota.
    destruct (Browser.render H env (resolve settings) (url_of env settings) w1)
      as [[[shot | e] w2] tr]; [| reflexivity].
    destruct (Browser.finish H (resolve settings) shot w2) as [[r w'] tf]. reflexivity. }
  rewrite Hstart.
  destruct (Browser.render H env (resolve settings) (url_of env settings) w1)
    as [[[shot | e] w2] tr]; unfold snd3 in Hw; cbn [fst snd] in Hw; subst w2.
  - destruct (finish_run H (resolve settings) shot w1) as (response & w' & tf & Hf & _).
    exists response, w', tf. split; [exact Hf |]. rewrite Hf. reflexivity.
  - reflexivity.
Qed.

(** Without a delivery, [fetch_during] is [Browser.fetch]. *)
Lemma fetch_during_nil H env url w :
  fetch_during H env url [] w = Browser.fetch H env url w.
Proof.
  unfold fetch_during, Browser.fetch, Browser.read_settings.
  destruct (match_pattern url) as [settings |]; [| reflexivity].
  unfold bind at 1. unfold ret at 1. cbv zeta.
  unfold bind at 1. symmetry. unfold bind at 1. unfold ret at 1. cbv zeta.
  unfold bind at 1. symmetry.
  destruct (Browser.acquire H w) as [[[[] | e] w1] ta]; [| reflexivity].
  f_equal.
  unfold bind at 1. symmetry. unfold bind at 1. symmetry. unfold modify.
  cbn [ticks_during]. unfold bind at 1. unfold ret at 1.
  destruct (bind _ _ (set_keptAliveInSeconds 0 w1)) as [[r w2] t2]. reflexivity.
Qed.

(** C1. Keep-alive lifecycle: a completed render leaves [keptAliveInSeconds]
    at 0, also when alarms were delivered while the request was waiting for
    the engine, because what follows the render resets the counter whatever
    it has become (line 113); every tick of [alarm] adds exactly 10 to it; a
    tick after which the counter is below 60 sets another alarm 10 seconds
    (10000 ms) after the clock reading and closes nothing; a tick after which
    the counter has reached 60 closes the browser at hand and sets no alarm,
    so that the slot emptied by the delivery stays empty. From a completed
    render this is the sixth idle tick: the five before it all extend the
    session. *)
Theorem keep_alive_lifecycle :
  (forall H env url w response w' t,
      Browser.fetch H env url w = (Normal response, w', t) ->
      keptAliveInSeconds w' = 0 /\ exists h, browser w' = Some h)
  /\ (forall H env url ticks w response w' t,
        fetch_during H env url ticks w = (Normal response, w', t) ->
        keptAliveInSeconds w' = 0 /\ exists h, browser w' = Some h)
  /\ (forall H s screenshot w,
        keptAliveInSeconds (snd3 (Browser.finish H s screenshot w)) = 0
        /\ exists response, fst3 (Browser.finish H s screenshot w) = Normal response)
  /\ (forall H env url w, fetch_during H env url [] w = Browser.fetch H env url w)
  /\ (forall H w, keptAliveInSeconds (snd3 (Browser.alarm H w)) = keptAliveInSeconds w + 10)
  /\ (forall H w,
        keptAliveInSeconds w + 10 < 60 ->
        fst3 (deliver_alarm H w) = Normal tt
        /\ storedAlarm (snd3 (deliver_alarm H w)) = Some (Date_now H (clockReads w) + 10000)
        /\ List.filter is_SetAlarm (thd3 (deliver_alarm H w))
           = [SetAlarm (Date_now H (clockReads w) + 10000)]
        /\ existsb is_BrowserClose (thd3 (deliver_alarm H w)) = false)
  /\ (forall H w,
        60 <= keptAliveInSeconds w + 10 ->
        storedAlarm (snd3 (deliver_alarm H w)) = None
        /\ existsb is_SetAlarm (thd3 (deliver_alarm H w)) = false
        /\ forall h, browser w = Some h ->
             In (BrowserClose h) (thd3 (deliver_alarm H w))
             /\ fst3 (deliver_alarm H w) = browser_close H h)
  /\ (forall Hs H w h,
        keptAliveInSeconds w = 0 -> browser w = Some h -> length Hs = 5%nat ->
        exists w5 t5,
          idle_ticks Hs w = (Normal tt, w5, t5)
          /\ existsb is_BrowserClose t5 = false
          /\ (exists at_, storedAlarm w5 = Some at_)
          /\ keptAliveInSeconds (snd3 (deliver_alarm H w5)) = 60
          /\ In (BrowserClose h) (thd3 (deliver_alarm H w5))
          /\ storedAlarm (snd3 (deliver_alarm H w5)) = None).
Proof.
  assert (Hevict : forall H w,
             60 <= keptAliveInSeconds w + 10 ->
             storedAlarm (snd3 (deliver_alarm H w)) = None
             /\ existsb is_SetAlarm (thd3 (deliver_alarm H w)) = false
             /\ forall h, browser w = Some h ->
                  In (BrowserClose h) (thd3 (deliver_alarm H w))
                  /\ fst3 (deliver_alarm H w) = browser_close H h).
  { intros H w Hge. rewrite deliver_alarm_run.
    destruct (alarm_evicts H (set_storedAlarm None w)) as [msg ->]; [exact Hge |].
    unfold fst3, snd3, thd3. cbn [fst snd browser set_storedAlarm storedAlarm set_keptAliveInSeconds].
    split; [reflexivity |]. split.
    - now destruct (browser w).
    - intros h ->. split; [simpl; auto | reflexivity]. }
  assert (Hduring : forall H env url ticks w response w' t,
             fetch_during H env url ticks w = (Normal response, w', t) ->
             keptAliveInSeconds w' = 0 /\ exists h, browser w' = Some h).
  { intros H env url ticks w response w' t Hrun.
    destruct (match_pattern url) as [settings |] eqn:Hm.
    2: { unfold fetch_during, Browser.read_settings in Hrun. rewrite Hm in Hrun.
         discriminate Hrun. }
    destruct (fetch_during_run H env url ticks w settings Hm)
      as (b & ta & w1 & tk & _ & _ & _ & Hb & _ & Hrender).
    destruct (Browser.render H env (resolve settings) (url_of env settings) w1)
      as [[[shot | e] w2] tr] eqn:Hr.
    2: { rewrite Hrender in Hrun. discriminate Hrun. }
    destruct Hrender as (response' & w'' & tf & Hf & Hrun').
    rewrite Hrun' in Hrun. injection Hrun as <- <- <-.
    destruct (finish_run H (resolve settings) shot w1)
      as (r0 & w0 & t0 & Hf0 & Hk0 & Hb0 & _).
    rewrite Hf in Hf0. injection Hf0 as <- <- <-.
    split; [exact Hk0 |]. rewrite Hb0.
    destruct (browser w1) as [h |] eqn:Hbw; [now exists h |].
    unfold Browser.render, bind, get, throw in Hr. rewrite Hbw in Hr. discriminate Hr. }
  split; [| split; [| split; [| split; [| split; [| split; [| split]]]]]].
  - intros H env url w response w' t Hrun.
    rewrite <- fetch_during_nil in Hrun. exact (Hduring _ _ _ _ _ _ _ _ Hrun).
  - exact Hduring.
  - intros H s shot w.
    destruct (finish_run H s shot w) as (response & w' & t & -> & Hk & _).
    split; [exact Hk | now exists response].
  - exact fetch_during_nil.
  - intros H w. apply alarm_fields.
  - intros H w Hlt. rewrite deliver_alarm_run.
    destruct (alarm_extends H (set_storedAlarm None w)) as [msg ->]; [exact Hlt |].
    unfold fst3, snd3, thd3. simpl. auto.
  - exact Hevict.
  - intros Hs H w h Hkept Hb Hlen.
    destruct (idle_ticks_within_budget Hs w) as (w5 & t5 & Hrun & Hk5 & Hb5 & Hclose & Halarm).
    { rewrite Hkept, Hlen. unfold KEEP_BROWSER_ALIVE_IN_SECONDS. lia. }
    rewrite Hkept, Hlen in Hk5. rewrite Hb in Hb5.
    exists w5, t5. split; [exact Hrun |]. split; [exact Hclose |]. split.
    { apply Halarm. intros ->. discriminate Hlen. }
    destruct (Hevict H w5) as (Hnone & _ & Hh); [lia |].
    destruct (Hh h Hb5) as [Hin _].
    split; [| split; assumption].
    rewrite deliver_alarm_run.
    destruct (alarm_evicts H (set_storedAlarm None w5)) as [msg ->]; [simpl; unfold KEEP_BROWSER_ALIVE_IN_SECONDS; lia |].
    unfold snd3. simpl. lia.
Qed.

(** The lifecycle on the sample engine: a render of [url_defaults] during
    which two alarms are delivered, then again what follows a render from a
    counter of 50, then six idle ticks. *)
Lemma keep_alive_lifecycle_witness :
  let w0 := snd3 (Browser.fetch host_ok env_plain url_defaults fresh) in
  let w5 := snd3 (idle_ticks [host_ok; host_ok; host_ok; host_ok; host_ok] w0) in
  keptAliveInSeconds w0 = 0
  /\ keptAliveInSeconds
       (snd3 (fetch_during host_ok env_plain url_defaults [host_ok; host_ok] fresh)) = 0
  /\ keptAliveInSeconds (snd3 (Browser.finish host_ok (resolve settings_defaults) "PNG" idle50))
     = 0
  /\ storedAlarm (snd3 (deliver_alarm host_ok w0)) = Some 1010002
  /\ keptAliveInSeconds w5 = 50
  /\ In (BrowserClose 1%nat) (thd3 (deliver_alarm host_ok w5))
  /\ storedAlarm (snd3 (deliver_alarm host_ok w5)) = None.
Proof.
  destruct keep_alive_lifecycle
    as (Hrender & Hduring & Hfinish & _ & Hadd & Hextend & Hevict & Hrun).
  cbv zeta. split; [| split; [| split; [| split; [| split; [| split]]]]].
  - refine (proj1 (Hrender host_ok env_plain url_defaults fresh
                     match fst3 (Browser.fetch host_ok env_plain url_defaults fresh) with
                     | Normal response => response
                     | Throw _ => cached_png
                     end
                     _ (thd3 (Browser.fetch host_ok env_plain url_defaults fresh)) _)).
    vm_compute. reflexivity.
  - refine (proj1 (Hduring host_ok env_plain url_defaults [host_ok; host_ok] fresh
                     match fst3 (fetch_during host_ok env_plain url_defaults
                                   [host_ok; host_ok] fresh) with
                     | Normal response => response
                     | Throw _ => cached_png
                     end
                     _ (thd3 (fetch_during host_ok env_plain url_defaults
                                [host_ok; host_ok] fresh)) _)).
    vm_compute. reflexivity.
  - exact (proj1 (Hfinish host_ok (resolve settings_defaults) "PNG" idle50)).
  - refine (proj1 (proj2 (Hextend host_ok _ _))). vm_compute. reflexivity.
  - vm_compute. reflexivity.
  - refine (proj1 (proj2 (proj2 (Hevict host_ok _ _)) 1%nat _)); vm_compute; congruence.
  - refine (proj1 (Hevict host_ok _ _)). vm_compute. congruence.
Defined.

(** ** What the stages call *)

Lemma forallb_existsb_false {A} (p q : A -> bool) (l : list A) :
  forallb p l = true -> (forall x, p x = true -> q x = false) -> existsb q l = false.
Proof.
  intros Hall Hpq. induction l as [| x l IH]; [reflexivity |].
  cbn [forallb existsb] in *. apply andb_true_iff in Hall as [Hx Hl].
  rewrite (Hpq x Hx). now apply IH.
Qed.

Lemma existsb_false_filter {A} (q : A -> bool) (l : list A) :
  existsb q l = false -> List.filter q l = [].
Proof.
  induction l as [| x l IH]; [reflexivity |].
  simpl. intros Hex. apply orb_false_iff in Hex as [-> Hl]. auto.
Qed.

(** Rendering calls the engine and nothing else. *)
Lemma render_calls_engine_only H env s url w :
  forallb is_engine_call (thd3 (Browser.render H env s url w)) = true.
Proof.
  unfold Browser.render, thd3. unfold_monad.
  repeat (simpl; split_next); reflexivity.
Qed.

Lemma acquire_sets_no_alarm t :
  forallb is_acquire_event t = true -> existsb is_SetAlarm t = false.
Proof. intros Ht. eapply forallb_existsb_false; [exact Ht |]. now intros []. Qed.

Lemma engine_sets_no_alarm t :
  forallb is_engine_call t = true -> existsb is_SetAlarm t = false.
Proof. intros Ht. eapply forallb_existsb_false; [exact Ht |]. now intros []. Qed.

Lemma acquire_events H w b ta :
  Browser.acquire H w = (Normal tt, set_browser b w, ta) ->
  forallb is_acquire_event ta = true.
Proof.
  intros Ha. destruct (acquire_run H w) as (b' & ta' & Ha' & Hev & _).
  rewrite Ha in Ha'. now injection Ha' as _ ->.
Qed.

Lemma render_events H env s url w r w' tr :
  Browser.render H env s url w = (r, w', tr) -> forallb is_engine_call tr = true.
Proof.
  intros Hr. pose proof (render_calls_engine_only H env s url w) as Hev.
  now rewrite Hr in Hev.
Qed.

(** C2. At most one eviction timer is pending: the slot holds one alarm at
    most, and [Browser.fetch] sets it only when it is empty, to the clock
    reading plus 10 seconds (10000 ms). A pending alarm is left as it is,
    whatever the outcome of the request; with an empty slot a completed
    request sets the alarm exactly once, and a request that throws sets none. *)
Theorem single_eviction_timer (H : Host) (env : Env) (url : string) (w : World) :
  let run := Browser.fetch H env url w in
  match storedAlarm w with
  | Some pending =>
      storedAlarm (snd3 run) = Some pending /\ existsb is_SetAlarm (thd3 run) = false
  | None =>
      match fst3 run with
      | Normal _ =>
          storedAlarm (snd3 run) = Some (Date_now H (clockReads w) + 10 * 1000)
          /\ List.filter is_SetAlarm (thd3 run) = [SetAlarm (Date_now H (clockReads w) + 10 * 1000)]
      | Throw _ =>
          storedAlarm (snd3 run) = None /\ existsb is_SetAlarm (thd3 run) = false
      end
  end.
Proof.
  cbv zeta. destruct (Browser.fetch H env url w) as [[r w'] t] eqn:Hrun.
  apply fetch_inv in Hrun. unfold fst3, snd3, thd3. cbn [fst snd].
  inversion Hrun as [Hm | settings b ta e tr Hm Ha Hr
                     | settings b ta shot tr resp Hm Ha Hr Hbody Hstatus w1]; subst.
  - destruct (storedAlarm _); auto.
  - pose proof (acquire_sets_no_alarm _ (acquire_events _ _ _ _ Ha)) as Hta.
    pose proof (engine_sets_no_alarm _ (render_events _ _ _ _ _ _ _ _ Hr)) as Htr.
    rewrite existsb_app, Hta, Htr. simpl. destruct (storedAlarm w); auto.
  - pose proof (acquire_sets_no_alarm _ (acquire_events _ _ _ _ Ha)) as Hta.
    pose proof (engine_sets_no_alarm _ (render_events _ _ _ _ _ _ _ _ Hr)) as Htr.
    rewrite arm_run. subst w1. cbn [storedAlarm clockReads set_keptAliveInSeconds set_browser].
    destruct (storedAlarm w) as [pending |] eqn:Hslot; unfold snd3, thd3; cbn [fst snd].
    + rewrite !existsb_app, Hta, Htr. simpl. auto.
    + rewrite !List.filter_app, (existsb_false_filter _ _ Hta), (existsb_false_filter _ _ Htr).
      simpl. auto.
Qed.

(** On the sample engine: the first request sets the alarm, the second one,
    two clock readings later, leaves it. *)
Lemma single_eviction_timer_witness :
  let w1 := snd3 (Browser.fetch host_ok env_plain url_defaults fresh) in
  storedAlarm w1 = Some 1010000
  /\ storedAlarm (snd3 (Browser.fetch host_ok env_plain url_example w1)) = Some 1010000
  /\ existsb is_SetAlarm (thd3 (Browser.fetch host_ok env_plain url_example w1)) = false.
Proof.
  cbv zeta. split.
  - exact (proj1 (single_eviction_timer host_ok env_plain url_defaults fresh)).
  - exact (single_eviction_timer host_ok env_plain url_example
             (snd3 (Browser.fetch host_ok env_plain url_defaults fresh))).
Defined.

(** ** Rendering inside a request *)

(** A request whose URL matches goes through acquiring, rendering and, when
    rendering completes, arming; the trace splits accordingly. *)
Lemma fetch_render H env url w r w' t settings :
  Browser.fetch H env url w = (r, w', t) ->
  match_pattern url = Some settings ->
  exists b ta rr tr tx,
    let w1 := set_keptAliveInSeconds 0 (set_browser b w) in
    Browser.render H env (resolve settings) (url_of env settings) w1 = (rr, w1, tr)
    /\ t = (ta ++ tr ++ tx)%list
    /\ forallb is_acquire_event ta = true
    /\ existsb is_engine_call tx = false
    /\ match rr with
       | Normal shot => exists response, r = Normal response /\ body response = shot
       | Throw e => r = Throw e /\ tx = []
       end.
Proof.
  intros Hrun Hm. apply fetch_inv in Hrun.
  inversion Hrun as [Hm' | g b ta e tr Hm' Ha Hr
                     | g b ta shot tr resp Hm' Ha Hr Hbody Hstatus w1]; subst.
  - congruence.
  - assert (g = settings) as -> by congruence.
    exists b, ta, (Throw e), tr, []. cbv zeta. rewrite app_nil_r.
    repeat split; eauto using acquire_events.
  - assert (g = settings) as -> by congruence.
    exists b, ta, (Normal (body resp)), tr, (thd3 (Browser.arm H w1)). cbv zeta.
    repeat split; eauto using acquire_events.
    rewrite arm_run. now destruct (storedAlarm w1).
Qed.

Lemma in_acquire_events e t :
  forallb is_acquire_event t = true -> In e t -> is_acquire_event e = true.
Proof. intros Hall Hin. rewrite forallb_forall in Hall. auto. Qed.

Lemma in_quiet_events e t :
  existsb is_engine_call t = false -> In e t -> is_engine_call e = false.
Proof.
  intros Hex Hin. destruct (is_engine_call e) eqn:He; [| reflexivity].
  assert (existsb is_engine_call t = true) by (apply existsb_exists; eauto). congruence.
Qed.

(** An engine call other than a launch or a connection check, found in the
    trace of a request, was made by the rendering stage. *)
Lemma in_fetch_in_render e (ta tr tx : list event) :
  forallb is_acquire_event ta = true ->
  existsb is_engine_call tx = false ->
  is_engine_call e = true -> is_acquire_event e = false ->
  In e (ta ++ tr ++ tx) -> In e tr.
Proof.
  intros Hta Htx He Hne Hin.
  apply in_app_or in Hin as [Hin | Hin].
  - pose proof (in_acquire_events _ _ Hta Hin). congruence.
  - apply in_app_or in Hin as [Hin | Hin]; [exact Hin |].
    pose proof (in_quiet_events _ _ Htx Hin). congruence.
Qed.

Lemma closes_of_fetch (ta tr tx : list event) :
  forallb is_acquire_event ta = true ->
  existsb is_engine_call tx = false ->
  List.filter is_close (ta ++ tr ++ tx) = List.filter is_close tr.
Proof.
  intros Hta Htx. rewrite !List.filter_app.
  rewrite (existsb_false_filter is_close ta), (existsb_false_filter is_close tx).
  - now rewrite app_nil_r.
  - eapply forallb_existsb_false with (p := fun e => negb (is_engine_call e)).
    + clear Hta. induction tx as [| x tx IH]; [reflexivity |].
      simpl in *. apply orb_false_iff in Htx as [-> Htx]. auto.
    + now intros [].
  - eapply forallb_existsb_false; [exact Hta |]. now intros [].
Qed.

(** The rendering stage, case by case: when it completes it has closed the
    page and then the context, once each, both opened by this call; when
    navigation or capture throws, it throws the same and has closed nothing. *)
Lemma render_cleanup H env s url w :
  let run := Browser.render H env s url w in
  (forall shot, fst3 run = Normal shot ->
     exists h c p,
       In (CreateIncognitoBrowserContext h) (thd3 run)
       /\ createIncognitoBrowserContext H h = Normal c
       /\ In (NewPage c) (thd3 run) /\ newPage H c = Normal p
       /\ List.filter is_close (thd3 run) = [PageClose p; ContextClose c])
  /\ (forall p u e, In (Goto p u) (thd3 run) -> goto H p u = Throw e ->
        fst3 run = Throw e /\ List.filter is_close (thd3 run) = [])
  /\ (forall p e, In (Pdf p) (thd3 run) -> pdf H p = Throw e ->
        fst3 run = Throw e /\ List.filter is_close (thd3 run) = [])
  /\ (forall p x y e, In (Screenshot p x y) (thd3 run) -> screenshot H p x y = Throw e ->
        fst3 run = Throw e /\ List.filter is_close (thd3 run) = []).
Proof.
  unfold Browser.render, fst3, snd3, thd3. unfold_monad. cbv zeta.
  repeat (simpl; split_next); simpl;
    (split; [| split; [| split]]);
    try (intros ? [=]);
    try (intros; simpl in *; intuition congruence).
  all: match goal with
       | Hc : createIncognitoBrowserContext _ ?h = Normal ?c,
         Hp : newPage _ ?c = Normal ?p |- _ => exists h, c, p; simpl; intuition
       end.
Qed.

(** C3, as the claim states it, fails: navigation fails on a page that was
    opened in a fresh context, the error leaves [Browser.fetch], and neither
    the page nor the context is closed. *)
Lemma cleanup_skipped_when_navigation_fails :
  let run := Browser.fetch host_goto_fails env_plain url_defaults fresh in
  fst3 run = Throw (EngineError "net::ERR_NAME_NOT_RESOLVED")
  /\ thd3 run =
       [Log "Browser DO: Starting new instance"; Launch;
        CreateIncognitoBrowserContext 1%nat; NewPage 2%nat;
        SetViewport 3%nat (Num 1200) (Num 630) (Num 1);
        Goto 3%nat "https://example.com/bar?"]
  /\ ~ In (PageClose 3%nat) (thd3 run)
  /\ ~ In (ContextClose 2%nat) (thd3 run).
Proof.
  cbv zeta. split; [vm_compute; reflexivity |]. split; [vm_compute; reflexivity |].
  split; vm_compute; intuition discriminate.
Qed.

(** C3, amended. A call of [Browser.fetch] that completes has closed the
    page and then the context, once each and in this order, both opened by
    this call. When navigation or capture throws, the call throws the same
    error and has closed neither. *)
Theorem cleanup_after_capture (H : Host) (env : Env) (url : string) (w : World) :
  let run := Browser.fetch H env url w in
  (forall response, fst3 run = Normal response ->
     exists h c p,
       In (CreateIncognitoBrowserContext h) (thd3 run)
       /\ createIncognitoBrowserContext H h = Normal c
       /\ In (NewPage c) (thd3 run) /\ newPage H c = Normal p
       /\ List.filter is_close (thd3 run) = [PageClose p; ContextClose c])
  /\ (forall p u e, In (Goto p u) (thd3 run) -> goto H p u = Throw e ->
        fst3 run = Throw e /\ List.filter is_close (thd3 run) = [])
  /\ (forall p e, In (Pdf p) (thd3 run) -> pdf H p = Throw e ->
        fst3 run = Throw e /\ List.filter is_close (thd3 run) = [])
  /\ (forall p x y e, In (Screenshot p x y) (thd3 run) -> screenshot H p x y = Throw e ->
        fst3 run = Throw e /\ List.filter is_close (thd3 run) = []).
Proof.
  cbv zeta. destruct (Browser.fetch H env url w) as [[r w'] t] eqn:Hrun.
  destruct (match_pattern url) as [settings |] eqn:Hm.
  - destruct (fetch_render _ _ _ _ _ _ _ _ Hrun Hm)
      as (b & ta & rr & tr & tx & Hr & -> & Hta & Htx & Hrr).
    cbv zeta in Hr.
    destruct (render_cleanup H env (resolve settings) (url_of env settings)
                (set_keptAliveInSeconds 0 (set_browser b w)))
      as (Hok & Hgoto & Hpdf & Hshot).
    rewrite Hr in Hok, Hgoto, Hpdf, Hshot. unfold fst3, snd3, thd3 in *. cbn [fst snd] in *.
    rewrite (closes_of_fetch ta tr tx Hta Htx).
    assert (Hfail : forall e, rr = Throw e -> r = Throw e).
    { intros e ->. tauto. }
    split; [| split; [| split]].
    + intros response ->. destruct rr as [shot | e]; [| destruct Hrr; discriminate].
      destruct (Hok shot eq_refl) as (h & c & p & Hc & Hch & Hp & Hph & Hclose).
      exists h, c, p. rewrite !in_app_iff. tauto.
    + intros p u e Hin Hgo.
      apply in_fetch_in_render in Hin; [| assumption | assumption | reflexivity | reflexivity].
      destruct (Hgoto p u e Hin Hgo). auto.
    + intros p e Hin Hgo.
      apply in_fetch_in_render in Hin; [| assumption | assumption | reflexivity | reflexivity].
      destruct (Hpdf p e Hin Hgo). auto.
    + intros p x y e Hin Hgo.
      apply in_fetch_in_render in Hin; [| assumption | assumption | reflexivity | reflexivity].
      destruct (Hshot p x y e Hin Hgo). auto.
  - apply fetch_inv in Hrun.
    inversion Hrun; subst; try congruence.
    unfold fst3, thd3; simpl. repeat split; try discriminate; try contradiction.
Qed.

(** On the sample engines: a completed render closes page 3 then context 2;
    a failed raster capture closes nothing. *)
Lemma cleanup_after_capture_witness :
  List.filter is_close (thd3 (Browser.fetch host_ok env_plain url_defaults fresh))
    = [PageClose 3%nat; ContextClose 2%nat]
  /\ List.filter is_close (thd3 (Browser.fetch host_capture_fails env_plain url_defaults fresh))
     = [].
Proof.
  split.
  - destruct (proj1 (cleanup_after_capture host_ok env_plain url_defaults fresh)
                match fst3 (Browser.fetch host_ok env_plain url_defaults fresh) with
                | Normal response => response
                | Throw _ => cached_png
                end) as (h & c & p & _ & Hc & _ & Hp & Hclose).
    + vm_compute. reflexivity.
    + injection Hc as <-. injection Hp as <-. exact Hclose.
  - refine (proj2 (proj2 (proj2 (proj2 (cleanup_after_capture host_capture_fails env_plain
                                           url_defaults fresh)))
                     3%nat (Num 1200) (Num 630)
                     (EngineError "Protocol error (Page.captureScreenshot)") _ eq_refl)).
    vm_compute. auto 10.
Defined.

(** ** A launch that fails *)

(** C4 at the failing input, in general: with no browser at hand and a launch
    that throws [e], the [catch] logs [e] and execution goes on to read a
    method of the absent [this.browser]. What reaches the caller is that
    [TypeError], whatever [e] was; [this.browser] is still unset, and the next
    request whose URL matches launches again. *)
Theorem launch_failure_falls_through (H : Host) (env : Env) (url : string) (w : World)
    (settings : groups) (e : exn) :
  match_pattern url = Some settings ->
  browser w = None ->
  launch H = Throw e ->
  let run := Browser.fetch H env url w in
  run = (Throw (TypeError
                  "Cannot read properties of undefined (reading 'createIncognitoBrowserContext')"),
         set_keptAliveInSeconds 0 w,
         [Log "Browser DO: Starting new instance"; Launch;
          Log ("Browser DO: Could not start browser instance. Error: " ++ exn_to_string e)])
  /\ browser (snd3 run) = None
  /\ forall H' env' url' settings',
       match_pattern url' = Some settings' ->
       exists rest,
         thd3 (Browser.fetch H' env' url' (snd3 run))
         = Log "Browser DO: Starting new instance" :: Launch :: rest.
Proof.
  intros Hm Hb Hl. cbv zeta.
  assert (Hrun : Browser.fetch H env url w =
                 (Throw (TypeError
                    "Cannot read properties of undefined (reading 'createIncognitoBrowserContext')"),
                  set_keptAliveInSeconds 0 w,
                  [Log "Browser DO: Starting new instance"; Launch;
                   Log ("Browser DO: Could not start browser instance. Error: "
                        ++ exn_to_string e)])).
  { unfold Browser.fetch, Browser.finish, Browser.read_settings, Browser.acquire, Browser.render.
    rewrite Hm. unfold_monad. simpl. rewrite Hb. simpl. rewrite Hl. simpl. rewrite Hb.
    reflexivity. }
  rewrite Hrun. unfold fst3, snd3, thd3. cbn [fst snd].
  split; [reflexivity |]. split; [exact Hb |].
  intros H' env' url' settings' Hm'.
  unfold Browser.fetch, Browser.finish, Browser.read_settings, Browser.acquire.
  rewrite Hm'. unfold_monad. cbn [browser set_keptAliveInSeconds]. rewrite Hb.
  repeat (simpl; split_next); eexists; reflexivity.
Qed.

(** On a durable object just constructed, with an engine that cannot be
    launched; the engine error is the one of [host_launch_fails]. *)
Lemma launch_failure_falls_through_witness :
  fst3 (Browser.fetch host_launch_fails env_plain url_defaults fresh)
    = Throw (TypeError
               "Cannot read properties of undefined (reading 'createIncognitoBrowserContext')")
  /\ fst3 (Browser.fetch host_launch_fails env_plain url_defaults fresh)
     <> Throw (EngineError "no browser available")
  /\ browser (snd3 (Browser.fetch host_launch_fails env_plain url_defaults fresh)) = None.
Proof.
  destruct (launch_failure_falls_through host_launch_fails env_plain url_defaults fresh
              settings_defaults (EngineError "no browser available"))
    as (Hrun & Hb & _).
  - vm_compute. reflexivity.
  - reflexivity.
  - reflexivity.
  - rewrite Hrun. unfold fst3. cbn [fst]. split; [reflexivity |]. split; [| exact Hb].
    intros [=].
Defined.

(** With a stale handle at hand, a failed launch leaves that handle in
    [this.browser], and the context is asked of it. *)
Lemma launch_failure_keeps_stale_handle H env url w settings h e :
  match_pattern url = Some settings ->
  browser w = Some h -> isConnected H h = false -> launch H = Throw e ->
  browser (snd3 (Browser.fetch H env url w)) = Some h
  /\ In (CreateIncognitoBrowserContext h) (thd3 (Browser.fetch H env url w)).
Proof.
  intros Hm Hb Hc Hl.
  unfold Browser.fetch, Browser.finish, Browser.read_settings, Browser.acquire, Browser.render, Browser.arm,
    Browser.respond.
  rewrite Hm. unfold_monad. simpl. rewrite Hb. simpl. rewrite Hc. simpl. rewrite Hl. simpl.
  rewrite Hb. unfold snd3, thd3.
  repeat (simpl; split_next); simpl; (split; [first [exact Hb | reflexivity] | auto 20]).
Qed.

(** ** The target URL *)

(** Whatever the parameters, the URL navigated to is the base, the path, a
    question mark and the parameters joined by ampersands. *)
Lemma target_url_shape (env : Env) (settings : groups) :
  url_of env settings
  = default "" (g_base settings) ++ default "" (g_path settings)
    ++ "?" ++ join "&" (params_of env settings).
Proof.
  unfold url_of, target_url, query_of, array_truthy. cbn [base path resolve omap].
  set (q := "?" ++ join "&" (params_of env settings)).
  destruct (g_base settings) as [b |], (g_path settings) as [p |]; simpl;
    repeat match goal with
           | |- context [String.eqb ?s ""] =>
               destruct (String.eqb_spec s ""); subst; simpl
           end;
    reflexivity.
Qed.

(** C5 at the failing input, in general: with no parameter at all, the URL
    navigated to still ends in a question mark. *)
Theorem empty_params_leave_question_mark (env : Env) (settings : groups) :
  params_of env settings = [] ->
  url_of env settings = default "" (g_base settings) ++ default "" (g_path settings) ++ "?".
Proof. intros Hp. now rewrite target_url_shape, Hp. Qed.

(** [url_defaults] has no query and no parameters are configured: the page
    that is opened is [https://example.com/bar?]. *)
Lemma empty_params_leave_question_mark_witness :
  exists settings,
    match_pattern url_defaults = Some settings
    /\ params_of env_plain settings = []
    /\ url_of env_plain settings = "https://example.com/bar?"
    /\ url_of env_plain settings <> "https://example.com/bar"
    /\ In (Goto 3%nat "https://example.com/bar?")
          (thd3 (Browser.fetch host_ok env_plain url_defaults fresh)).
Proof.
  exists settings_defaults.
  split; [vm_compute; reflexivity |]. split; [reflexivity |].
  split; [| split].
  - exact (empty_params_leave_question_mark env_plain settings_defaults eq_refl).
  - rewrite (empty_params_leave_question_mark env_plain settings_defaults eq_refl).
    discriminate.
  - vm_compute. auto 10.
Defined.

(** ** The worker and its cache *)

(** [Browser.fetch] never touches the cache. *)
Lemma fetch_keeps_cache H env url w : cache (snd3 (Browser.fetch H env url w)) = cache w.
Proof.
  destruct (Browser.fetch H env url w) as [[r w'] t] eqn:Hrun.
  apply fetch_inv in Hrun. unfold snd3. cbn [fst snd].
  inversion Hrun as [| | settings b ta shot tr resp Hm Ha Hr Hbody Hstatus w1]; subst;
    try reflexivity.
  rewrite arm_run. now destruct (storedAlarm w1).
Qed.

(** [Browser.fetch] neither reads nor writes the cache through its trace. *)
Lemma fetch_puts_nothing H env url w :
  existsb is_CachePut (thd3 (Browser.fetch H env url w)) = false.
Proof.
  destruct (Browser.fetch H env url w) as [[r w'] t] eqn:Hrun.
  apply fetch_inv in Hrun. unfold thd3. cbn [snd].
  inversion Hrun as [| settings b ta e tr Hm Ha Hr
                     | settings b ta shot tr resp Hm Ha Hr Hbody Hstatus w1]; subst;
    try reflexivity.
  - rewrite existsb_app.
    rewrite (forallb_existsb_false is_acquire_event is_CachePut ta (acquire_events _ _ _ _ Ha)),
      (forallb_existsb_false is_engine_call is_CachePut tr (render_events _ _ _ _ _ _ _ _ Hr));
      [reflexivity | now intros [] | now intros []].
  - rewrite !existsb_app.
    rewrite (forallb_existsb_false is_acquire_event is_CachePut ta (acquire_events _ _ _ _ Ha)),
      (forallb_existsb_false is_engine_call is_CachePut tr (render_events _ _ _ _ _ _ _ _ Hr));
      [| now intros [] | now intros []].
    rewrite arm_run. now destruct (storedAlarm w1).
Qed.

(** The worker on a miss: the durable object is asked; what it throws is
    thrown on, and only what it returns is put into the cache. *)
Lemma worker_miss H env url w :
  cache w !! url = None ->
  Worker.fetch H env url w =
    match Browser.fetch H env url w with
    | (Normal response, w1, t1) =>
        (Normal response, set_cache (<[url := response]> (cache w1)) w1,
         CacheMatch url :: StubFetch url :: t1 ++ [CachePut url response])
    | (Throw e, w1, t1) => (Throw e, w1, CacheMatch url :: StubFetch url :: t1)
    end.
Proof.
  intros Hmiss. unfold Worker.fetch, Worker.cache_match, Worker.stub_fetch, Worker.waitUntil,
    Worker.cache_put, Worker.clone.
  unfold_monad. rewrite Hmiss.
  destruct (Browser.fetch H env url w) as [[[response | e] w1] t1]; reflexivity.
Qed.

Lemma worker_hit H env url w cached :
  cache w !! url = Some cached ->
  Worker.fetch H env url w = (Normal cached, w, [CacheMatch url]).
Proof.
  intros Hhit. unfold Worker.fetch, Worker.cache_match. unfold_monad. now rewrite Hhit.
Qed.

(** C6, as the claim states it, fails: on the malformed example nothing is
    rendered, but the worker's handler throws, which the runtime answers with
    status 500: no client error (status 400 to 499) is returned. *)
Lemma malformed_url_is_no_client_error :
  let run := Worker.fetch host_ok env_plain url_malformed fresh in
  match_pattern url_malformed = None
  /\ fst3 run = Throw (TypeError "Cannot read properties of null (reading 'groups')")
  /\ answered_status (fst3 run) = 500
  /\ ~ (400 <= answered_status (fst3 run) < 500).
Proof.
  cbv zeta. split; [vm_compute; reflexivity |]. split; [vm_compute; reflexivity |].
  split; [vm_compute; reflexivity |]. vm_compute. intros [_ Hlt]. discriminate Hlt.
Qed.

(** C6, amended. For a URL that the pattern does not match, reading the
    groups of the failed match throws a [TypeError], the only error the
    parsing step throws, before anything else happens: no engine call, no
    change of the durable object. On a cache miss the worker throws the same
    error, having asked the cache and the durable object only, and puts
    nothing into the cache. *)
Theorem malformed_url_throws (H : Host) (env : Env) (url : string) (w : World) :
  match_pattern url = None ->
  Browser.fetch H env url w
    = (Throw (TypeError "Cannot read properties of null (reading 'groups')"), w, [])
  /\ (forall url' w0 e w1 t1,
        Browser.read_settings url' w0 = (Throw e, w1, t1) ->
        e = TypeError "Cannot read properties of null (reading 'groups')"
        /\ match_pattern url' = None)
  /\ (cache w !! url = None ->
      Worker.fetch H env url w
        = (Throw (TypeError "Cannot read properties of null (reading 'groups')"), w,
           [CacheMatch url; StubFetch url])).
Proof.
  intros Hm.
  assert (Hrun : Browser.fetch H env url w
                 = (Throw (TypeError "Cannot read properties of null (reading 'groups')"),
                    w, [])).
  { unfold Browser.fetch, Browser.finish, Browser.read_settings. rewrite Hm. reflexivity. }
  split; [exact Hrun |]. split.
  - intros url' w0 e w1 t1. unfold Browser.read_settings.
    destruct (match_pattern url'); [discriminate |]. now intros [= <- _ _].
  - intros Hmiss. now rewrite (worker_miss H env url w Hmiss), Hrun.
Qed.

Lemma malformed_url_throws_witness :
  Worker.fetch host_ok env_plain url_malformed fresh
  = (Throw (TypeError "Cannot read properties of null (reading 'groups')"), fresh,
     [CacheMatch url_malformed; StubFetch url_malformed]).
Proof.
  refine (proj2 (proj2 (malformed_url_throws host_ok env_plain url_malformed fresh _)) _).
  - vm_compute. reflexivity.
  - reflexivity.
Defined.

(** C7. When [Browser.fetch] throws on a cache miss, the worker's handler
    throws the same error, which the runtime answers with status 500, a
    server error; the cache is left as it was and nothing is put into it.
    Whatever is put into the cache is the response that [Browser.fetch]
    returned for this URL, under this URL. *)
Theorem errors_are_never_cached (H : Host) (env : Env) (url : string) (w : World) :
  let run := Worker.fetch H env url w in
  (forall e,
      cache w !! url = None ->
      fst3 (Browser.fetch H env url w) = Throw e ->
      fst3 run = Throw e
      /\ answered_status (fst3 run) = 500
      /\ cache (snd3 run) = cache w
      /\ existsb is_CachePut (thd3 run) = false)
  /\ (forall e, fst3 run = Throw e ->
        cache (snd3 run) = cache w /\ existsb is_CachePut (thd3 run) = false)
  /\ (forall key response,
        In (CachePut key response) (thd3 run) ->
        key = url
        /\ fst3 (Browser.fetch H env url w) = Normal response
        /\ fst3 run = Normal response).
Proof.
  cbv zeta.
  pose proof (fetch_keeps_cache H env url w) as Hcache.
  pose proof (fetch_puts_nothing H env url w) as Hput.
  destruct (cache w !! url) as [cached |] eqn:Hlook.
  - rewrite (worker_hit H env url w cached Hlook). unfold fst3, snd3, thd3. cbn [fst snd].
    split; [discriminate |]. split; [discriminate |].
    intros key response [[=] | []].
  - rewrite (worker_miss H env url w Hlook).
    destruct (Browser.fetch H env url w) as [[[response | e] w1] t1];
      unfold fst3, snd3, thd3 in *; cbn [fst snd] in *.
    + split; [discriminate |]. split; [discriminate |].
      intros key response' [[=] | [[=] | Hin]].
      apply in_app_or in Hin as [Hin | [[= <- <-] | []]]; [| auto].
      assert (existsb is_CachePut t1 = true) by (apply existsb_exists; eauto). congruence.
    + split; [| split].
      * intros e' _ [= <-]. simpl. auto.
      * intros e' _. simpl. auto.
      * intros key response [[=] | [[=] | Hin]].
        assert (existsb is_CachePut t1 = true) by (apply existsb_exists; eauto). congruence.
Qed.

(** On the sample engines: a failed navigation leaves the cache empty; a
    completed render is stored under the request URL. *)
Lemma errors_are_never_cached_witness :
  cache (snd3 (Worker.fetch host_goto_fails env_plain url_defaults fresh)) = cache fresh
  /\ answered_status (fst3 (Worker.fetch host_goto_fails env_plain url_defaults fresh)) = 500
  /\ cache (snd3 (Worker.fetch host_ok env_plain url_defaults fresh)) !! url_defaults
     = match fst3 (Browser.fetch host_ok env_plain url_defaults fresh) with
       | Normal response => Some response
       | Throw _ => None
       end.
Proof.
  destruct (proj1 (errors_are_never_cached host_goto_fails env_plain url_defaults fresh)
              (EngineError "net::ERR_NAME_NOT_RESOLVED") eq_refl)
    as (_ & Hstatus & Hcache & _).
  - vm_compute. reflexivity.
  - split; [exact Hcache |]. split; [exact Hstatus |]. vm_compute. reflexivity.
Defined.

(** C8. A cache hit short-circuits rendering: the worker returns the cached
    response as it is, having asked the cache and nothing else; neither the
    pattern nor the durable object is reached, and the world is unchanged. *)
Theorem cache_hit_short_circuits (H : Host) (env : Env) (url : string) (w : World)
    (cached : Response) :
  cache w !! url = Some cached ->
  Worker.fetch H env url w = (Normal cached, w, [CacheMatch url])
  /\ existsb is_engine_call (thd3 (Worker.fetch H env url w)) = false
  /\ ~ In (StubFetch url) (thd3 (Worker.fetch H env url w)).
Proof.
  intros Hhit. rewrite (worker_hit H env url w cached Hhit). unfold thd3. cbn [snd].
  split; [reflexivity |]. split; [reflexivity |]. intros [[=] | []].
Qed.

(** A hit on a malformed URL, with an engine that could not even be launched. *)
Lemma cache_hit_short_circuits_witness :
  Worker.fetch host_launch_fails env_plain url_malformed
    (set_cache {[url_malformed := cached_png]} fresh)
  = (Normal cached_png, set_cache {[url_malformed := cached_png]} fresh,
     [CacheMatch url_malformed]).
Proof.
  refine (proj1 (cache_hit_short_circuits host_launch_fails env_plain url_malformed
                   (set_cache {[url_malformed := cached_png]} fresh) cached_png _)).
  vm_compute. reflexivity.
Defined.

(** ** Defaults *)

(** Every response that [Browser.fetch] returns has status 200 and announces
    the default lifetime. *)
Lemma response_max_age H env url w response :
  fst3 (Browser.fetch H env url w) = Normal response ->
  status response = 200
  /\ In ("Cache-Control", "public, max-age=604800") (headers response).
Proof.
  unfold Browser.fetch, Browser.finish, Browser.read_settings, Browser.acquire, Browser.render, Browser.arm,
    Browser.respond, fst3.
  unfold_monad.
  repeat (simpl; split_next); simpl; try discriminate;
    intros [= <-]; (split; [reflexivity | left; reflexivity]).
Qed.

(** C9. Defaults apply exactly for every omitted optional field: a group that
    took no part in the match gives format png, width 1200, height 630,
    scale 1, and the lifetime is 604800 seconds whatever the match; a group
    that took part gives its own value. The worked example: the match of
    [url_example] resolves to width 600, height 400, scale 2, format pdf and
    lifetime 604800, and with no configured parameters the page navigated to
    is [https://example.com/foo/bar?x=1]. *)
Theorem defaults_apply_and_example :
  (forall settings, g_format settings = None -> format (resolve settings) = "png")
  /\ (forall settings, g_width settings = None -> width (resolve settings) = Num 1200)
  /\ (forall settings, g_height settings = None -> height (resolve settings) = Num 630)
  /\ (forall settings, g_scale settings = None -> scale (resolve settings) = Num 1)
  /\ (forall settings, maxage (resolve settings) = 604800)
  /\ (forall settings v, g_format settings = Some v -> format (resolve settings) = v)
  /\ (forall settings v, g_width settings = Some v ->
        width (resolve settings) = parseInt (VStr v))
  /\ (forall settings v, g_height settings = Some v ->
        height (resolve settings) = parseInt (VStr v))
  /\ (forall settings v, g_scale settings = Some v ->
        scale (resolve settings) = parseInt (VStr v))
  /\ match_pattern url_example = Some settings_example
  /\ resolve settings_example
     = {| base := Some "https://example.com"; format := "pdf"; path := Some "/foo/bar";
          width := Num 600; height := Num 400; maxage := 604800; scale := Num 2 |}
  /\ url_of env_plain settings_example = "https://example.com/foo/bar?x=1"
  /\ thd3 (Browser.fetch host_ok env_plain url_example fresh)
     = [Log "Browser DO: Starting new instance"; Launch;
        CreateIncognitoBrowserContext 1%nat; NewPage 2%nat;
        SetViewport 3%nat (Num 600) (Num 400) (Num 2);
        Goto 3%nat "https://example.com/foo/bar?x=1"; Pdf 3%nat;
        PageClose 3%nat; ContextClose 2%nat;
        GetAlarm; Log "Browser DO: setting alarm"; SetAlarm 1010000]
  /\ (forall H env url w response,
        fst3 (Browser.fetch H env url w) = Normal response ->
        In ("Cache-Control", "public, max-age=604800") (headers response)).
Proof.
  repeat apply conj.
  - intros settings Hf. unfold resolve. cbn [format]. now rewrite Hf.
  - intros settings Hf. unfold resolve. cbn [width]. rewrite Hf. vm_compute. reflexivity.
  - intros settings Hf. unfold resolve. cbn [height]. rewrite Hf. vm_compute. reflexivity.
  - intros settings Hf. unfold resolve. cbn [scale]. rewrite Hf. vm_compute. reflexivity.
  - reflexivity.
  - intros settings v Hf. unfold resolve. cbn [format]. now rewrite Hf.
  - intros settings v Hf. unfold resolve. cbn [width]. now rewrite Hf.
  - intros settings v Hf. unfold resolve. cbn [height]. now rewrite Hf.
  - intros settings v Hf. unfold resolve. cbn [scale]. now rewrite Hf.
  - vm_compute. reflexivity.
  - vm_compute. reflexivity.
  - vm_compute. reflexivity.
  - vm_compute. reflexivity.
  - intros H env url w response Hrun. now apply (response_max_age H env url w).
Qed.

(** The defaults on [url_defaults], which gives no size, scale or format. *)
Lemma defaults_apply_and_example_witness :
  match_pattern url_defaults = Some settings_defaults
  /\ format (resolve settings_defaults) = "png"
  /\ width (resolve settings_defaults) = Num 1200
  /\ height (resolve settings_defaults) = Num 630
  /\ scale (resolve settings_defaults) = Num 1
  /\ maxage (resolve settings_defaults) = 604800.
Proof.
  destruct defaults_apply_and_example as (Hf & Hw & Hh & Hs & Hm & _).
  split; [vm_compute; reflexivity |].
  split; [exact (Hf settings_defaults eq_refl) |].
  split; [exact (Hw settings_defaults eq_refl) |].
  split; [exact (Hh settings_defaults eq_refl) |].
  split; [exact (Hs settings_defaults eq_refl) | exact (Hm settings_defaults)].
Defined.

(** ** Forwarded access headers *)

Lemma render_headers H env s url w :
  let run := Browser.render H env s url w in
  (forall p hs, In (SetExtraHTTPHeaders p hs) (thd3 run) ->
     both_set env = true /\ hs = access_headers env)
  /\ (both_set env = true ->
      forall c p, In (NewPage c) (thd3 run) -> newPage H c = Normal p ->
        In (SetExtraHTTPHeaders p (access_headers env)) (thd3 run)).
Proof.
  unfold Browser.render, thd3, both_set, access_headers. unfold_monad. cbv zeta.
  destruct (truthy (CF_ACCESS_CLIENT_ID env) && truthy (CF_ACCESS_CLIENT_SECRET env)) eqn:Hb.
  - repeat (simpl; split_next); simpl; split; intros; intuition congruence.
  - repeat (simpl; split_next); simpl; split; intros; intuition congruence.
Qed.

(** C10. The two access headers are set on the page if and only if both
    [CF_ACCESS_CLIENT_ID] and [CF_ACCESS_CLIENT_SECRET] are set (hold a
    non-empty string): any call of [setExtraHTTPHeaders] implies that both
    are set and carries exactly the two headers with the configured values;
    when both are set, every page opened by the request gets them; when one
    of the two is missing, [setExtraHTTPHeaders] is not called at all. *)
Theorem access_headers_iff_both_set (H : Host) (env : Env) (url : string) (w : World) :
  let run := Browser.fetch H env url w in
  (forall p hs, In (SetExtraHTTPHeaders p hs) (thd3 run) ->
     both_set env = true /\ hs = access_headers env)
  /\ (both_set env = true ->
      forall c p, In (NewPage c) (thd3 run) -> newPage H c = Normal p ->
        In (SetExtraHTTPHeaders p (access_headers env)) (thd3 run))
  /\ (both_set env = false -> existsb is_SetExtraHTTPHeaders (thd3 run) = false).
Proof.
  cbv zeta.
  assert (Hmain :
    (forall p hs, In (SetExtraHTTPHeaders p hs) (thd3 (Browser.fetch H env url w)) ->
       both_set env = true /\ hs = access_headers env)
    /\ (both_set env = true ->
        forall c p, In (NewPage c) (thd3 (Browser.fetch H env url w)) ->
          newPage H c = Normal p ->
          In (SetExtraHTTPHeaders p (access_headers env)) (thd3 (Browser.fetch H env url w)))).
  { destruct (Browser.fetch H env url w) as [[r w'] t] eqn:Hrun.
    destruct (match_pattern url) as [settings |] eqn:Hm.
    - destruct (fetch_render _ _ _ _ _ _ _ _ Hrun Hm)
        as (b & ta & rr & tr & tx & Hr & -> & Hta & Htx & _).
      cbv zeta in Hr.
      destruct (render_headers H env (resolve settings) (url_of env settings)
                  (set_keptAliveInSeconds 0 (set_browser b w))) as (Honly & Hall).
      rewrite Hr in Honly, Hall. unfold thd3 in *. cbn [snd] in *.
      split.
      + intros p hs Hin.
        apply in_fetch_in_render in Hin; [| assumption | assumption | reflexivity | reflexivity].
        eauto.
      + intros Hboth c p Hin Hp.
        apply in_fetch_in_render in Hin; [| assumption | assumption | reflexivity | reflexivity].
        rewrite !in_app_iff. right. left. eauto.
    - apply fetch_inv in Hrun. inversion Hrun; subst; try congruence.
      unfold thd3; simpl. split; [contradiction |]. intros _ c p [].
  }
  destruct Hmain as (Honly & Hall).
  split; [exact Honly |]. split; [exact Hall |].
  intros Hnot.
  destruct (existsb is_SetExtraHTTPHeaders (thd3 (Browser.fetch H env url w))) eqn:Hex;
    [| reflexivity].
  apply existsb_exists in Hex as ([] & Hin & Hx); try discriminate Hx.
  destruct (Honly _ _ Hin) as [Hboth _]. congruence.
Qed.

(** On the sample engine: with both values set the page gets the two
    headers; with the identifier alone it gets none. *)
Lemma access_headers_iff_both_set_witness :
  In (SetExtraHTTPHeaders 3%nat
        [("CF-Access-Client-Id", "id.access"); ("CF-Access-Client-Secret", "s3cret")])
     (thd3 (Browser.fetch host_ok env_access url_defaults fresh))
  /\ existsb is_SetExtraHTTPHeaders (thd3 (Browser.fetch host_ok env_id_only url_defaults fresh))
     = false.
Proof.
  split.
  - refine (proj1 (proj2 (access_headers_iff_both_set host_ok env_access url_defaults fresh))
              eq_refl 2%nat 3%nat _ eq_refl).
    vm_compute. auto 10.
  - exact (proj2 (proj2 (access_headers_iff_both_set host_ok env_id_only url_defaults fresh))
             eq_refl).
Defined.

(** * More properties: the matcher and the pattern *)

Lemma orelse_Some {A} (x y : option A) v :
  Regex.orelse x y = Some v -> x = Some v \/ (x = None /\ y = Some v).
Proof. destruct x; simpl; intros; [left | right]; auto. Qed.

(** Whatever the matcher finds is a match: the continuation succeeded on the
    outcome of some way of consuming text with the expression. *)
Lemma exec_sound {R} (r : Regex.regex) :
  forall input rest cs (k : string -> Regex.captures -> option R) v,
    Regex.exec r input rest cs k = Some v ->
    exists rest' cs', Match input r rest cs rest' cs' /\ k rest' cs' = Some v.
Proof.
  induction r as [| | p | r1 IH1 r2 IH2 | r1 IH1 r2 IH2 | r1 IH1 | greedy r1 IH1 | name r1 IH1];
    intros input rest cs k v Hexec; simpl in Hexec.
  - destruct (Regex.at_start input rest) eqn:Hs; [| discriminate].
    exists rest, cs. split; [now constructor | exact Hexec].
  - destruct rest; [| discriminate]. exists "", cs. split; [constructor | exact Hexec].
  - destruct rest as [| c rest]; [discriminate |].
    destruct (p c) eqn:Hp; [| discriminate].
    exists rest, cs. split; [now constructor | exact Hexec].
  - apply IH1 in Hexec as (rest1 & cs1 & H1 & Hexec).
    apply IH2 in Hexec as (rest2 & cs2 & H2 & Hk).
    exists rest2, cs2. split; [econstructor; eauto | exact Hk].
  - apply orelse_Some in Hexec as [Hexec | [_ Hexec]].
    + apply IH1 in Hexec as (rest' & cs' & H1 & Hk). exists rest', cs'.
      split; [now apply Match_Alt_l | exact Hk].
    + apply IH2 in Hexec as (rest' & cs' & H2 & Hk). exists rest', cs'.
      split; [now apply Match_Alt_r | exact Hk].
  - apply orelse_Some in Hexec as [Hexec | [_ Hexec]].
    + apply IH1 in Hexec as (rest' & cs' & H1 & Hk).
      destruct (Nat.ltb_spec (String.length rest') (String.length rest)); [| discriminate].
      exists rest', cs'. split; [now apply Match_Opt_some | exact Hk].
    + exists rest, cs. split; [apply Match_Opt_none | exact Hexec].
  - revert Hexec. generalize (String.length rest) at 1. intros n. revert rest cs.
    induction n as [| n IHn]; intros rest cs Hexec.
    + exists rest, cs. split; [apply Match_Star_stop | exact Hexec].
    + assert (Hstep :
        Regex.exec r1 input rest cs (fun rest' cs' =>
          if Nat.ltb (String.length rest') (String.length rest)
          then (fix loop (n : nat) (rest : string) (cs : Regex.captures) {struct n} : option R :=
                  match n with
                  | O => k rest cs
                  | S n' =>
                      let again :=
                        Regex.exec r1 input rest cs (fun rest' cs' =>
                          if Nat.ltb (String.length rest') (String.length rest)
                          then loop n' rest' cs' else None) in
                      if greedy then Regex.orelse again (k rest cs)
                      else Regex.orelse (k rest cs) again
                  end) n rest' cs'
          else None) = Some v
        \/ k rest cs = Some v).
      { destruct greedy; apply orelse_Some in Hexec; tauto. }
      destruct Hstep as [Hstep | Hk].
      * apply IH1 in Hstep as (rest1 & cs1 & H1 & Hloop).
        destruct (Nat.ltb_spec (String.length rest1) (String.length rest)); [| discriminate].
        apply IHn in Hloop as (rest2 & cs2 & H2 & Hk).
        exists rest2, cs2. split; [eapply Match_Star_step; eauto | exact Hk].
      * exists rest, cs. split; [apply Match_Star_stop | exact Hk].
  - apply IH1 in Hexec as (rest' & cs' & H1 & Hk).
    exists rest', ((name, Regex.consumed rest rest') :: cs'). split; [now constructor | exact Hk].
Qed.

Lemma exec_Star {R} greedy r1 input rest cs (k : string -> Regex.captures -> option R) :
  Regex.exec (Regex.Star greedy r1) input rest cs k
  = star_loop greedy r1 input k (String.length rest) rest cs.
Proof. reflexivity. Qed.

Lemma exec_fails {R} r input rest cs (k : string -> Regex.captures -> option R) :
  (forall rest' cs', k rest' cs' = None) -> Regex.exec r input rest cs k = None.
Proof.
  intros Hk. destruct (Regex.exec r input rest cs k) as [v |] eqn:Hexec; [| reflexivity].
  apply exec_sound in Hexec as (rest' & cs' & _ & Hv). rewrite Hk in Hv. discriminate.
Qed.

Lemma orelse_None_r {A} (x : option A) : Regex.orelse x None = x.
Proof. now destruct x. Qed.

(** The matcher looks at its continuation pointwise. *)
Lemma exec_ext {R} (r : Regex.regex) :
  forall input rest cs (k1 k2 : string -> Regex.captures -> option R),
    (forall rest' cs', k1 rest' cs' = k2 rest' cs') ->
    Regex.exec r input rest cs k1 = Regex.exec r input rest cs k2.
Proof.
  induction r as [| | p | r1 IH1 r2 IH2 | r1 IH1 r2 IH2 | r1 IH1 | greedy r1 IH1 | name r1 IH1];
    intros input rest cs k1 k2 Hk; simpl.
  - now rewrite Hk.
  - now rewrite Hk.
  - destruct rest as [| c rest]; [reflexivity |]. now rewrite Hk.
  - apply IH1. intros rest' cs'. now apply IH2.
  - now rewrite (IH1 _ _ _ k1 k2 Hk), (IH2 _ _ _ k1 k2 Hk).
  - rewrite Hk. f_equal. apply IH1. intros rest' cs'. now rewrite Hk.
  - change (star_loop greedy r1 input k1 (String.length rest) rest cs
            = star_loop greedy r1 input k2 (String.length rest) rest cs).
    generalize (String.length rest). intros n. revert rest cs.
    induction n as [| n IHn]; intros rest cs; [apply Hk |].
    simpl. rewrite Hk.
    rewrite (IH1 input rest cs
               (fun rest' cs' =>
                  if Nat.ltb (String.length rest') (String.length rest)
                  then star_loop greedy r1 input k1 n rest' cs' else None)
               (fun rest' cs' =>
                  if Nat.ltb (String.length rest') (String.length rest)
                  then star_loop greedy r1 input k2 n rest' cs' else None)).
    + reflexivity.
    + intros rest' cs'. destruct (Nat.ltb _ _); [apply IHn | reflexivity].
  - apply IH1. intros rest' cs'. apply Hk.
Qed.

(** Fuel beyond the length of what is left changes nothing. *)
Lemma star_loop_fuel {R} greedy r1 input (k : string -> Regex.captures -> option R) :
  forall n m rest cs,
    (String.length rest <= n)%nat -> (String.length rest <= m)%nat ->
    star_loop greedy r1 input k n rest cs = star_loop greedy r1 input k m rest cs.
Proof.
  assert (Hzero : forall m rest cs,
             String.length rest = 0%nat ->
             star_loop greedy r1 input k m rest cs = k rest cs).
  { intros [| m] rest cs Hlen; [reflexivity |]. simpl. rewrite Hlen.
    rewrite exec_fails by reflexivity.
    destruct greedy; [reflexivity | apply orelse_None_r]. }
  induction n as [| n IHn]; intros m rest cs Hn Hm.
  - rewrite (Hzero m) by lia. reflexivity.
  - destruct m as [| m]; [rewrite (Hzero (S n)) by lia; reflexivity |].
    simpl.
    rewrite (exec_ext r1 input rest cs
               (fun rest' cs' =>
                  if Nat.ltb (String.length rest') (String.length rest)
                  then star_loop greedy r1 input k n rest' cs' else None)
               (fun rest' cs' =>
                  if Nat.ltb (String.length rest') (String.length rest)
                  then star_loop greedy r1 input k m rest' cs' else None)); [reflexivity |].
    intros rest' cs'.
    destruct (Nat.ltb_spec (String.length rest') (String.length rest)); [| reflexivity].
    apply IHn; lia.
Qed.

(** Whenever some match lets the continuation succeed, the matcher succeeds
    (on that match or on one it tries earlier). *)
Lemma exec_complete {R} input r rest cs rest' cs' :
  Match input r rest cs rest' cs' ->
  forall k : string -> Regex.captures -> option R,
    is_Some (k rest' cs') -> is_Some (Regex.exec r input rest cs k).
Proof.
  assert (Horelse_l : forall (x y : option R), is_Some x -> is_Some (Regex.orelse x y)).
  { intros [v |] y [w Hw]; [eexists; reflexivity | discriminate]. }
  assert (Horelse_r : forall (x y : option R), is_Some y -> is_Some (Regex.orelse x y)).
  { intros [v |] y Hy; [eexists; reflexivity | exact Hy]. }
  induction 1 as [rest cs Hs | cs | p c rest cs Hp
                  | r1 r2 rest cs rest1 cs1 rest2 cs2 _ IH1 _ IH2
                  | r1 r2 rest cs rest' cs' _ IH | r1 r2 rest cs rest' cs' _ IH
                  | r rest cs rest' cs' _ IH Hlt | r rest cs
                  | greedy r rest cs
                  | greedy r rest cs rest1 cs1 rest2 cs2 _ IH1 Hlt _ IH2
                  | name r rest cs rest' cs' _ IH];
    intros k Hk; simpl.
  - now rewrite Hs.
  - exact Hk.
  - now rewrite Hp.
  - apply IH1. now apply IH2.
  - apply Horelse_l. now apply IH.
  - apply Horelse_r. now apply IH.
  - apply Horelse_l. apply IH. apply Nat.ltb_lt in Hlt. now rewrite Hlt.
  - now apply Horelse_r.
  - change (is_Some (star_loop greedy r input k (String.length rest) rest cs)).
    destruct (String.length rest); simpl; [exact Hk |].
    destruct greedy; [now apply Horelse_r | now apply Horelse_l].
  - change (is_Some (star_loop greedy r input k (String.length rest) rest cs)).
    destruct (String.length rest) as [| n] eqn:Hlen; [lia |]. simpl.
    assert (Hagain :
      is_Some (Regex.exec r input rest cs (fun rest' cs' =>
        if Nat.ltb (String.length rest') (String.length rest)
        then star_loop greedy r input k n rest' cs' else None))).
    { apply IH1.
      assert (Nat.ltb (String.length rest1) (String.length rest) = true) as ->
        by (apply Nat.ltb_lt; lia).
      rewrite (star_loop_fuel greedy r input k n (String.length rest1)) by lia.
      apply (IH2 k Hk). }
    destruct greedy; [now apply Horelse_l | now apply Horelse_r].
  - apply IH. exact Hk.
Qed.

(** ** Strings *)

Lemma str_length_app (a b : string) :
  String.length (a ++ b) = (String.length a + String.length b)%nat.
Proof.
  induction a as [| c a IH]; [reflexivity |].
  change (S (String.length (a ++ b)) = S (String.length a + String.length b)). now rewrite IH.
Qed.

Lemma str_app_assoc (a b c : string) : (a ++ b) ++ c = a ++ b ++ c.
Proof.
  induction a as [| x a IH]; [reflexivity |].
  change (String x ((a ++ b) ++ c) = String x (a ++ b ++ c)). now rewrite IH.
Qed.

Lemma str_app_nil_r (a : string) : a ++ "" = a.
Proof.
  induction a as [| x a IH]; [reflexivity |].
  change (String x (a ++ "") = String x a). now rewrite IH.
Qed.

Lemma substring_prefix (a b : string) : String.substring 0 (String.length a) (a ++ b) = a.
Proof.
  induction a as [| x a IH]; [now destruct b |].
  change (String x (String.substring 0 (String.length a) (a ++ b)) = String x a).
  now rewrite IH.
Qed.

(** What a group captures between two suffixes is the text in between. *)
Lemma consumed_app (w rest : string) : Regex.consumed (w ++ rest) rest = w.
Proof.
  unfold Regex.consumed. rewrite str_length_app.
  replace (String.length w + String.length rest - String.length rest)%nat
    with (String.length w) by lia.
  apply substring_prefix.
Qed.

(** ** What the parts of the pattern consume *)

Lemma Match_Chr input c rest cs rest' cs' :
  Match input (Regex.Chr c) rest cs rest' cs' -> rest = String c rest' /\ cs' = cs.
Proof.
  unfold Regex.Chr. inversion 1 as [| | p c' r cs0 Hp | | | | | | | |]; subst.
  apply Ascii.eqb_eq in Hp as ->. auto.
Qed.

Lemma Match_Star_Cls input greedy p rest cs rest' cs' :
  Match input (Regex.Star greedy (Regex.Cls p)) rest cs rest' cs' ->
  cs' = cs /\ exists w, rest = w ++ rest' /\ all_chars p w = true.
Proof.
  remember (Regex.Star greedy (Regex.Cls p)) as r eqn:Hr.
  induction 1 as [| | | | | | | | g r0 rest cs
                  | g r0 rest cs rest1 cs1 rest2 cs2 H1 _ Hlt _ IH2 |];
    try discriminate Hr.
  - split; [reflexivity |]. exists "". auto.
  - injection Hr as -> ->.
    inversion H1 as [| | p' c r cs0 Hp | | | | | | | |]; subst.
    destruct (IH2 eq_refl) as [-> (w & -> & Hw)].
    split; [reflexivity |]. exists (String c w). split; [reflexivity |].
    simpl. now rewrite Hp, Hw.
Qed.

Lemma Match_Lit input s : forall rest cs rest' cs',
  Match input (Regex.Lit s) rest cs rest' cs' -> rest = s ++ rest' /\ cs' = cs.
Proof.
  induction s as [| c s IH]; intros rest cs rest' cs' Hm.
  - apply Match_Star_Cls in Hm as [-> (w & -> & Hw)].
    destruct w; [auto | discriminate Hw].
  - destruct s as [| c' s].
    + apply Match_Chr in Hm as [-> ->]. auto.
    + change (Regex.Lit (String c (String c' s)))
        with (Regex.Cat (Regex.Chr c) (Regex.Lit (String c' s))) in Hm.
      inversion Hm as [| | | r1 r2 r cs0 rest1 cs1 rest2 cs2 H1 H2 | | | | | | |]; subst.
      apply Match_Chr in H1 as [-> ->].
      apply IH in H2 as [-> ->]. auto.
Qed.

Lemma Match_Plus_Cls input p rest cs rest' cs' :
  Match input (Regex.Plus (Regex.Cls p)) rest cs rest' cs' ->
  cs' = cs /\ exists w, w <> "" /\ rest = w ++ rest' /\ all_chars p w = true.
Proof.
  unfold Regex.Plus.
  inversion 1 as [| | | r1 r2 r cs0 rest1 cs1 rest2 cs2 H1 H2 | | | | | | |]; subst.
  inversion H1 as [| | p' c r cs0 Hp | | | | | | | |]; subst.
  apply Match_Star_Cls in H2 as [-> (w & -> & Hw)].
  split; [reflexivity |]. exists (String c w).
  split; [discriminate |]. split; [reflexivity |]. simpl. now rewrite Hp, Hw.
Qed.

Ltac inv_Cat H H1 H2 :=
  inversion H as [| | | ? ? ? ? ? ? ? ? H1 H2 | | | | | | |]; subst; clear H.

Ltac inv_Opt H H1 :=
  inversion H as [| | | | | | ? ? ? ? ? H1 ? | ? ? ? | | |]; subst; clear H.

Ltac inv_Grp H H1 :=
  inversion H as [| | | | | | | | | | ? ? ? ? ? ? H1]; subst; clear H.

Lemma consumed_app2 (a b rest : string) : Regex.consumed (a ++ b ++ rest) rest = a ++ b.
Proof. rewrite <- str_app_assoc. apply consumed_app. Qed.

Lemma in_range_2_4 c : in_range "2" "4" c = true -> c = "2"%char \/ c = "3"%char \/ c = "4"%char.
Proof.
  unfold in_range. rewrite andb_true_iff, !Nat.leb_le. intros [Hlo Hhi].
  rewrite <- (ascii_nat_embedding c).
  change (nat_of_ascii "2") with 50%nat in Hlo. change (nat_of_ascii "4") with 52%nat in Hhi.
  assert (nat_of_ascii c = 50 \/ nat_of_ascii c = 51 \/ nat_of_ascii c = 52)%nat
    as [-> | [-> | ->]] by lia; auto.
Qed.

Lemma pattern_base_inv input rest cs rest' cs' :
  Match input pattern_base rest cs rest' cs' ->
  Regex.at_start input rest = true
  /\ exists host marker,
       host <> "" /\ all_chars is_base_char host = true
       /\ (marker = "/screenshot" \/ marker = "/screenshots")
       /\ rest = "https://" ++ host ++ marker ++ rest'
       /\ cs' = ("base", "https://" ++ host) :: cs.
Proof.
  unfold pattern_base. intros Hm.
  inv_Cat Hm Hbol Hm1. inversion Hbol as [r c Hs | | | | | | | | | |]; subst.
  split; [exact Hs |].
  inv_Cat Hm1 Hbase Hmark. inv_Grp Hbase Hbase1. inv_Cat Hbase1 Hlit Hhost.
  apply (Match_Lit _ "https://") in Hlit as [-> ->].
  apply Match_Plus_Cls in Hhost as [-> (host & Hne & -> & Hhost)].
  inv_Cat Hmark Hlit1 Hs'. apply (Match_Lit _ "/screenshot") in Hlit1 as [-> ->].
  exists host. rewrite (consumed_app2 "https://" host) in Hs'.
  inv_Opt Hs' Hs1.
  - apply Match_Chr in Hs1 as [-> ->]. exists "/screenshots".
    repeat split; auto.
  - exists "/screenshot". repeat split; auto.
Qed.

Lemma pattern_size_inv input rest cs rest' cs' :
  Match input pattern_size rest cs rest' cs' ->
  (rest' = rest /\ cs' = cs)
  \/ exists w h,
       w <> "" /\ h <> "" /\ all_chars is_digit w = true /\ all_chars is_digit h = true
       /\ rest = "/" ++ w ++ "x" ++ h ++ rest'
       /\ cs' = ("height", h) :: ("width", w) :: cs.
Proof.
  unfold pattern_size. intros Hm. inv_Opt Hm Hm1; [right | now left].
  inv_Cat Hm1 Hslash Hm2. apply Match_Chr in Hslash as [-> ->].
  inv_Cat Hm2 Hw Hm3. inv_Grp Hw Hw1.
  apply Match_Plus_Cls in Hw1 as [-> (w & Hwne & -> & Hw)].
  inv_Cat Hm3 Hx Hh. apply Match_Chr in Hx as [-> ->].
  inv_Grp Hh Hh1. apply Match_Plus_Cls in Hh1 as [-> (h & Hhne & -> & Hh)].
  exists w, h. rewrite !consumed_app. repeat split; auto.
Qed.

Lemma pattern_path_inv input rest cs rest' cs' :
  Match input pattern_path rest cs rest' cs' ->
  exists p,
    all_chars is_dot p = true /\ rest = "/" ++ p ++ rest' /\ cs' = ("path", "/" ++ p) :: cs.
Proof.
  unfold pattern_path. intros Hm. inv_Grp Hm Hm1. inv_Cat Hm1 Hslash Hp.
  apply Match_Chr in Hslash as [-> ->].
  apply Match_Star_Cls in Hp as [-> (p & -> & Hp)].
  exists p. split; [exact Hp |]. split; [reflexivity |].
  change (String "/" (p ++ rest')) with (("/" ++ p) ++ rest').
  now rewrite consumed_app.
Qed.

Lemma pattern_scale_inv input rest cs rest' cs' :
  Match input pattern_scale rest cs rest' cs' ->
  (rest' = rest /\ cs' = cs)
  \/ exists s,
       (s = "2" \/ s = "3" \/ s = "4")
       /\ rest = "@" ++ s ++ "x" ++ rest' /\ cs' = ("scale", s) :: cs.
Proof.
  unfold pattern_scale. intros Hm. inv_Opt Hm Hm1; [right | now left].
  inv_Cat Hm1 Hat Hm2. apply Match_Chr in Hat as [-> ->].
  inv_Cat Hm2 Hs Hx. inv_Grp Hs Hs1.
  inversion Hs1 as [| | p c r cs0 Hc | | | | | | | |]; subst.
  apply Match_Chr in Hx as [-> ->].
  exists (String c "").
  change (Regex.consumed (String c (String "x" rest')) (String "x" rest'))
    with (Regex.consumed (String c "" ++ "x" ++ rest') ("x" ++ rest')).
  rewrite consumed_app.
  split; [| split; reflexivity].
  apply in_range_2_4 in Hc as [-> | [-> | ->]]; auto.
Qed.

Lemma pattern_format_inv input rest cs rest' cs' :
  Match input pattern_format rest cs rest' cs' ->
  (rest' = rest /\ cs' = cs)
  \/ exists f,
       (f = "pdf" \/ f = "png") /\ rest = "." ++ f ++ rest' /\ cs' = ("format", f) :: cs.
Proof.
  unfold pattern_format. intros Hm. inv_Opt Hm Hm1; [right | now left].
  inv_Cat Hm1 Hdot Hm2. apply Match_Chr in Hdot as [-> ->].
  inv_Grp Hm2 Hm3.
  inversion Hm3 as [| | | | r1 r2 r cs0 r' cs1 Hf | r1 r2 r cs0 r' cs1 Hf | | | | |]; subst.
  - apply (Match_Lit _ "pdf") in Hf as [-> ->]. rewrite consumed_app. exists "pdf". auto.
  - apply (Match_Lit _ "png") in Hf as [-> ->]. rewrite consumed_app. exists "png". auto.
Qed.

Lemma pattern_query_inv input rest cs rest' cs' :
  Match input pattern_query rest cs rest' cs' ->
  rest' = ""
  /\ ((rest = "" /\ cs' = cs)
      \/ exists q,
           all_chars is_dot q = true /\ rest = "?" ++ q /\ cs' = ("query", "?" ++ q) :: cs).
Proof.
  unfold pattern_query. intros Hm. inv_Cat Hm Hq Heol.
  inversion Heol as [| c | | | | | | | | |]; subst. split; [reflexivity |].
  inv_Opt Hq Hq1; [right | now left].
  inv_Grp Hq1 Hq2. inv_Cat Hq2 Hmark Hq3. apply Match_Chr in Hmark as [-> ->].
  apply Match_Star_Cls in Hq3 as [-> (q & -> & Hq)].
  exists q. rewrite str_app_nil_r. split; [exact Hq |]. split; [reflexivity |].
  change (Regex.consumed (String "?" q) "") with (Regex.consumed ("?" ++ q) "").
  rewrite <- (str_app_nil_r ("?" ++ q)) at 1. now rewrite consumed_app.
Qed.

(** ** Matching a URL against [pattern] *)

Lemma pattern_anchored :
  pattern
  = Regex.Cat pattern_base
      (Regex.Cat pattern_size
         (Regex.Cat pattern_path
            (Regex.Cat pattern_scale (Regex.Cat pattern_format pattern_query)))).
Proof. reflexivity. Qed.

(** Away from the start of the input the pattern fails at once. *)
Lemma exec_pattern_off_start {R} input rest cs (k : string -> Regex.captures -> option R) :
  Regex.at_start input rest = false -> Regex.exec pattern input rest cs k = None.
Proof.
  intros Hs. rewrite pattern_anchored. unfold pattern_base.
  cbn [Regex.exec]. now rewrite Hs.
Qed.

Lemma search_pattern_off_start input : forall rest,
  (String.length rest < String.length input)%nat -> Regex.search pattern input rest = None.
Proof.
  induction rest as [| c rest IH]; intros Hlt.
  - cbn [Regex.search]. rewrite exec_pattern_off_start; [reflexivity |].
    unfold Regex.at_start. apply Nat.eqb_neq. lia.
  - cbn [Regex.search]. rewrite exec_pattern_off_start.
    + apply IH. simpl in Hlt. lia.
    + unfold Regex.at_start. apply Nat.eqb_neq. lia.
Qed.

(** Because of the anchor, matching a URL is one run of the matcher from its
    first character. *)
Lemma match_pattern_exec url :
  match_pattern url = groups_of <$> Regex.exec pattern url url [] (fun _ cs => Some cs).
Proof.
  unfold match_pattern, Regex.match_. f_equal.
  destruct url as [| c url]; cbn [Regex.search];
    destruct (Regex.exec pattern _ _ [] (fun _ cs => Some cs)) as [cs |]; try reflexivity.
  apply search_pattern_off_start. simpl. lia.
Qed.

Lemma match_pattern_sound url g :
  match_pattern url = Some g ->
  exists cs, Match url pattern url [] "" cs /\ g = groups_of cs.
Proof.
  rewrite match_pattern_exec.
  destruct (Regex.exec pattern url url [] (fun _ cs => Some cs)) as [cs |] eqn:Hexec;
    [| discriminate].
  intros [= <-]. apply exec_sound in Hexec as (rest' & cs' & Hm & [= ->]).
  exists cs. split; [| reflexivity].
  assert (rest' = "") as <-; [| exact Hm].
  rewrite pattern_anchored in Hm.
  repeat match goal with
         | H : Match _ (Regex.Cat _ _) _ _ _ _ |- _ =>
             let H1 := fresh "Hl" in let H2 := fresh "Hr" in inv_Cat H H1 H2
         end.
  match goal with
  | H : Match _ pattern_query _ _ _ _ |- _ => now apply pattern_query_inv in H as [-> _]
  end.
Qed.

Lemma match_pattern_complete url rest' cs :
  Match url pattern url [] rest' cs -> is_Some (match_pattern url).
Proof.
  intros Hm. rewrite match_pattern_exec.
  destruct (exec_complete url pattern url [] rest' cs Hm (fun _ cs => Some cs)) as [cs' ->];
    [eexists; reflexivity |].
  eexists. reflexivity.
Qed.

(** A URL that matches is the concatenation of what the groups captured,
    with the marker after the base, and every group has the shape its part
    of the pattern allows. *)
Lemma match_pattern_shape (url : string) (g : groups) :
  match_pattern url = Some g ->
  well_formed g
  /\ exists marker,
       (marker = "/screenshot" \/ marker = "/screenshots") /\ url = rebuild marker g.
Proof.
  intros Hm. apply match_pattern_sound in Hm as (cs & Hm & ->).
  rewrite pattern_anchored in Hm.
  inv_Cat Hm Hbase Hm1. inv_Cat Hm1 Hsize Hm2. inv_Cat Hm2 Hpath Hm3.
  inv_Cat Hm3 Hscale Hm4. inv_Cat Hm4 Hformat Hquery.
  apply pattern_base_inv in Hbase as (_ & host & marker & Hne & Hhost & Hmarker & Hurl & ->).
  apply pattern_path_inv in Hpath as (p & Hp & -> & ->).
  apply pattern_query_inv in Hquery as (_ & Hquery).
  apply pattern_size_inv in Hsize
    as [[<- ->] | (w & h & Hwne & Hhne & Hw & Hh & -> & ->)];
    apply pattern_scale_inv in Hscale as [[<- ->] | (s & Hs & -> & ->)];
    apply pattern_format_inv in Hformat as [[<- ->] | (f & Hf & -> & ->)];
    destruct Hquery as [[-> ->] | (q & Hq & -> & ->)];
    subst url;
    (split;
     [ unfold well_formed, base_ok, size_ok, path_ok, scale_ok, format_ok, query_ok;
       cbn;
       repeat split; eauto 10;
       try (right; eauto 12);
       try (destruct Hs as [-> | [-> | ->]]; auto);
       try (destruct Hf as [-> | ->]; auto)
     | exists marker; split; [exact Hmarker |];
       unfold rebuild, segment_size, segment_scale, segment_format; cbn;
       rewrite ?str_app_assoc; reflexivity ]).
Qed.

(** ** Building matches *)

Lemma Match_Chr_intro input c rest cs : Match input (Regex.Chr c) (String c rest) cs rest cs.
Proof. apply Match_Cls. apply Ascii.eqb_refl. Qed.

Lemma Match_Star_Cls_intro input greedy p w rest cs :
  all_chars p w = true ->
  Match input (Regex.Star greedy (Regex.Cls p)) (w ++ rest) cs rest cs.
Proof.
  induction w as [| c w IH]; intros Hw; [apply Match_Star_stop |].
  simpl in Hw. apply andb_true_iff in Hw as [Hc Hw].
  change (String c w ++ rest) with (String c (w ++ rest)).
  eapply Match_Star_step; [now apply Match_Cls | simpl; lia | now apply IH].
Qed.

Lemma Match_Plus_Cls_intro input p w rest cs :
  w <> "" -> all_chars p w = true ->
  Match input (Regex.Plus (Regex.Cls p)) (w ++ rest) cs rest cs.
Proof.
  destruct w as [| c w]; [congruence |]. intros _ Hw.
  simpl in Hw. apply andb_true_iff in Hw as [Hc Hw].
  change (String c w ++ rest) with (String c (w ++ rest)).
  eapply Match_Cat; [now apply Match_Cls | now apply Match_Star_Cls_intro].
Qed.

Lemma Match_Lit_intro input s : forall rest cs,
  Match input (Regex.Lit s) (s ++ rest) cs rest cs.
Proof.
  induction s as [| c s IH]; intros rest cs; [apply Match_Star_stop |].
  destruct s as [| c' s]; [apply Match_Chr_intro |].
  change (Regex.Lit (String c (String c' s)))
    with (Regex.Cat (Regex.Chr c) (Regex.Lit (String c' s))).
  eapply Match_Cat; [apply Match_Chr_intro | apply IH].
Qed.

Lemma Match_Grp_intro input name r w rest cs cs' :
  Match input r (w ++ rest) cs rest cs' ->
  Match input (Regex.Grp name r) (w ++ rest) cs rest ((name, w) :: cs').
Proof.
  intros Hm. rewrite <- (consumed_app w rest) at 2. now apply Match_Grp.
Qed.

Lemma pattern_base_intro input host marker rest cs :
  host <> "" -> all_chars is_base_char host = true ->
  marker = "/screenshot" \/ marker = "/screenshots" ->
  Regex.at_start input (("https://" ++ host) ++ marker ++ rest) = true ->
  Match input pattern_base (("https://" ++ host) ++ marker ++ rest) cs rest
    (("base", "https://" ++ host) :: cs).
Proof.
  intros Hne Hhost Hmarker Hs. unfold pattern_base.
  eapply Match_Cat; [now apply Match_Bol |].
  eapply Match_Cat.
  - apply Match_Grp_intro. rewrite str_app_assoc.
    eapply Match_Cat; [apply (Match_Lit_intro _ "https://") |].
    now apply Match_Plus_Cls_intro.
  - destruct Hmarker as [-> | ->].
    + eapply Match_Cat; [apply (Match_Lit_intro _ "/screenshot") | apply Match_Opt_none].
    + change ("/screenshots" ++ rest) with ("/screenshot" ++ String "s" rest).
      eapply Match_Cat; [apply (Match_Lit_intro _ "/screenshot") |].
      apply Match_Opt_some; [apply Match_Chr_intro | simpl; lia].
Qed.

Lemma pattern_size_intro input w h rest cs :
  w <> "" -> h <> "" -> all_chars is_digit w = true -> all_chars is_digit h = true ->
  Match input pattern_size (("/" ++ w ++ "x" ++ h) ++ rest) cs rest
    (("height", h) :: ("width", w) :: cs).
Proof.
  intros Hwne Hhne Hw Hh. unfold pattern_size.
  apply Match_Opt_some.
  - rewrite !str_app_assoc.
    eapply Match_Cat; [apply Match_Chr_intro |].
    eapply Match_Cat; [apply Match_Grp_intro; now apply Match_Plus_Cls_intro |].
    eapply Match_Cat; [apply Match_Chr_intro |].
    apply Match_Grp_intro. now apply Match_Plus_Cls_intro.
  - rewrite str_length_app. simpl. lia.
Qed.

Lemma pattern_path_intro input p rest cs :
  all_chars is_dot p = true ->
  Match input pattern_path (("/" ++ p) ++ rest) cs rest (("path", "/" ++ p) :: cs).
Proof.
  intros Hp. unfold pattern_path. apply Match_Grp_intro. rewrite str_app_assoc.
  eapply Match_Cat; [apply Match_Chr_intro | now apply Match_Star_Cls_intro].
Qed.

Lemma pattern_scale_intro input s rest cs :
  s = "2" \/ s = "3" \/ s = "4" ->
  Match input pattern_scale (("@" ++ s ++ "x") ++ rest) cs rest (("scale", s) :: cs).
Proof.
  intros Hs. unfold pattern_scale. apply Match_Opt_some.
  - rewrite !str_app_assoc.
    eapply Match_Cat; [apply Match_Chr_intro |].
    eapply Match_Cat; [| apply Match_Chr_intro].
    apply Match_Grp_intro.
    destruct Hs as [-> | [-> | ->]]; now apply Match_Cls.
  - rewrite str_length_app. simpl. lia.
Qed.

Lemma pattern_format_intro input f rest cs :
  f = "pdf" \/ f = "png" ->
  Match input pattern_format (("." ++ f) ++ rest) cs rest (("format", f) :: cs).
Proof.
  intros Hf. unfold pattern_format. apply Match_Opt_some.
  - rewrite str_app_assoc.
    eapply Match_Cat; [apply Match_Chr_intro |].
    apply Match_Grp_intro.
    destruct Hf as [-> | ->];
      [apply Match_Alt_l; apply (Match_Lit_intro _ "pdf")
      | apply Match_Alt_r; apply (Match_Lit_intro _ "png")].
  - rewrite str_length_app. simpl. lia.
Qed.

Lemma pattern_query_intro input q cs :
  all_chars is_dot q = true ->
  Match input pattern_query ("?" ++ q) cs "" (("query", "?" ++ q) :: cs).
Proof.
  intros Hq. unfold pattern_query.
  eapply Match_Cat; [| apply Match_Eol].
  apply Match_Opt_some; [| simpl; lia].
  rewrite <- (str_app_nil_r ("?" ++ q)) at 1. apply Match_Grp_intro.
  rewrite str_app_assoc.
  eapply Match_Cat; [apply Match_Chr_intro | now apply Match_Star_Cls_intro].
Qed.

Lemma pattern_query_intro_none input cs : Match input pattern_query "" cs "" cs.
Proof.
  unfold pattern_query. eapply Match_Cat; [apply Match_Opt_none | apply Match_Eol].
Qed.

(** Groups of the shape the pattern allows, put after either marker, give a
    URL that matches. *)
Lemma well_formed_url_matches (marker : string) (g : groups) :
  well_formed g ->
  marker = "/screenshot" \/ marker = "/screenshots" ->
  is_Some (match_pattern (rebuild marker g)).
Proof.
  intros (Hbase & Hsize & Hpath & Hscale & Hformat & Hquery) Hmarker.
  destruct g as [gb gw gh gp gs gf gq].
  unfold base_ok, size_ok, path_ok, scale_ok, format_ok, query_ok in *. cbn in *.
  destruct Hbase as (host & -> & Hne & Hhost).
  destruct Hpath as (p & -> & Hp).
  assert (Hq : exists cs0 : Regex.captures, forall cs,
             Match (rebuild marker
                      {| g_base := Some ("https://" ++ host); g_width := gw; g_height := gh;
                         g_path := Some ("/" ++ p); g_scale := gs; g_format := gf;
                         g_query := gq |})
               pattern_query (default "" gq) cs "" (cs0 ++ cs)%list).
  { destruct Hquery as [-> | (q & -> & Hq)].
    - exists []. intros cs. apply pattern_query_intro_none.
    - exists [("query", "?" ++ q)]. intros cs. now apply pattern_query_intro. }
  destruct Hq as (csq & Hq).
  set (url := rebuild _ _) in *.
  assert (Hf : exists cs0 : Regex.captures, forall cs rest,
             Match url pattern_format
               (match gf with Some f => "." ++ f | None => "" end ++ rest) cs rest (cs0 ++ cs)%list).
  { destruct Hformat as [-> | Hf].
    - exists []. intros cs rest. apply Match_Opt_none.
    - destruct gf as [f |]; [| destruct Hf; discriminate].
      exists [("format", f)]. intros cs rest. apply pattern_format_intro.
      destruct Hf as [[= ->] | [= ->]]; auto. }
  destruct Hf as (csf & Hf).
  assert (Hs : exists cs0 : Regex.captures, forall cs rest,
             Match url pattern_scale
               (match gs with Some s => "@" ++ s ++ "x" | None => "" end ++ rest) cs rest
               (cs0 ++ cs)%list).
  { destruct Hscale as [-> | Hs].
    - exists []. intros cs rest. apply Match_Opt_none.
    - destruct gs as [s |]; [| destruct Hs as [? | [? | ?]]; discriminate].
      exists [("scale", s)]. intros cs rest. apply pattern_scale_intro.
      destruct Hs as [[= ->] | [[= ->] | [= ->]]]; auto. }
  destruct Hs as (css & Hs).
  assert (Hz : exists cs0 : Regex.captures, forall cs rest,
             Match url pattern_size
               (match gw, gh with Some w, Some h => "/" ++ w ++ "x" ++ h | _, _ => "" end
                ++ rest) cs rest (cs0 ++ cs)%list).
  { destruct Hsize as [[-> ->] | (w & h & -> & -> & Hwne & Hhne & Hw & Hh)].
    - exists []. intros cs rest. apply Match_Opt_none.
    - exists [("height", h); ("width", w)]. intros cs rest. now apply pattern_size_intro. }
  destruct Hz as (csz & Hz).
  eapply match_pattern_complete with (rest' := "").
  rewrite pattern_anchored.
  eapply Match_Cat.
  { subst url. unfold rebuild, segment_size, segment_scale, segment_format. cbn.
    apply pattern_base_intro; auto.
    unfold Regex.at_start. apply Nat.eqb_refl. }
  eapply Match_Cat; [apply Hz |].
  eapply Match_Cat; [apply pattern_path_intro; exact Hp |].
  eapply Match_Cat; [apply Hs |].
  eapply Match_Cat; [apply Hf |].
  apply Hq.
Qed.

(** ** The settings of a match *)

Lemma is_digit_value c : is_digit c = true -> 0 <= digit_value c <= 9.
Proof.
  unfold is_digit, in_range, digit_value. rewrite andb_true_iff, !Nat.leb_le.
  change (nat_of_ascii "0") with 48%nat. change (nat_of_ascii "9") with 57%nat.
  lia.
Qed.

Lemma parse_digits_all s : forall a,
  all_chars is_digit s = true -> 0 <= a ->
  exists n, parse_digits s (Some a) = Some n
            /\ a * 10 ^ Z.of_nat (String.length s) <= n
               < (a + 1) * 10 ^ Z.of_nat (String.length s).
Proof.
  induction s as [| c s IH]; intros a Hs Ha.
  - exists a. cbn. split; [reflexivity | lia].
  - simpl in Hs. apply andb_true_iff in Hs as [Hc Hs].
    cbn [parse_digits]. rewrite Hc.
    pose proof (is_digit_value c Hc) as Hd.
    destruct (IH (10 * default 0 (Some a) + digit_value c) Hs) as (n & Hn & Hlo & Hhi);
      [cbn; lia |].
    exists n. split; [exact Hn |].
    cbn [default] in Hlo, Hhi. cbn [String.length]. rewrite Nat2Z.inj_succ, Z.pow_succ_r by lia.
    pose proof (Z.pow_pos_nonneg 10 (Z.of_nat (String.length s)) ltac:(lia) ltac:(lia)) as HP.
    set (P := 10 ^ Z.of_nat (String.length s)) in *. set (d := digit_value c) in *.
    unfold id in Hlo, Hhi. clearbody P d.
    assert (0 <= d * P) by (apply Z.mul_nonneg_nonneg; lia).
    assert (0 <= (9 - d) * P) by (apply Z.mul_nonneg_nonneg; lia).
    lia.
Qed.

(** The value of a non-empty string of digits, below the power of ten of
    its length. *)
Lemma parse_digits_value s :
  s <> "" -> all_chars is_digit s = true ->
  exists n, parse_digits s None = Some n /\ 0 <= n < 10 ^ Z.of_nat (String.length s).
Proof.
  destruct s as [| c s]; [congruence |]. intros _ Hs.
  simpl in Hs. apply andb_true_iff in Hs as [Hc Hs].
  cbn [parse_digits]. rewrite Hc.
  pose proof (is_digit_value c Hc) as Hd.
  destruct (parse_digits_all s (10 * default 0 None + digit_value c) Hs) as (n & Hn & Hlo & Hhi);
    [cbn; lia |].
  exists n. split; [exact Hn |].
  cbn [default] in Hlo, Hhi. cbn [String.length]. rewrite Nat2Z.inj_succ, Z.pow_succ_r by lia.
  pose proof (Z.pow_pos_nonneg 10 (Z.of_nat (String.length s)) ltac:(lia) ltac:(lia)) as HP.
  set (P := 10 ^ Z.of_nat (String.length s)) in *. set (d := digit_value c) in *.
    unfold id in Hlo, Hhi. clearbody P d.
  assert (0 <= d * P) by (apply Z.mul_nonneg_nonneg; lia).
  assert (0 <= (9 - d) * P) by (apply Z.mul_nonneg_nonneg; lia).
  lia.
Qed.

(** Rounding gives a number that is not negative, or [Infinity]. *)
Lemma to_double_range n :
  0 <= n -> (exists v, to_double n = Num v /\ 0 <= v) \/ to_double n = Infinity.
Proof.
  intros Hn. unfold to_double.
  destruct (n <? 2 ^ 53); [left; now exists n |].
  cbv zeta.
  set (e := Z.log2 n - 52). set (q := n / 2 ^ e).
  match goal with
  | |- context [if ?c then q + 1 else q] => set (q' := if c then q + 1 else q)
  end.
  destruct (q' * 2 ^ e <? 2 ^ 1024); [left | now right].
  eexists. split; [reflexivity |].
  assert (0 <= 2 ^ e) by (apply Z.pow_nonneg; lia).
  assert (0 <= q) by (subst q; now apply Z_div_nonneg_nonneg).
  assert (q <= q') by (subst q'; destruct (_ || _); lia).
  apply Z.mul_nonneg_nonneg; lia.
Qed.

(** Below 2^53 nothing is rounded. *)
Lemma to_double_exact n : n < 2 ^ 53 -> to_double n = Num n.
Proof. intros Hn. unfold to_double. apply Z.ltb_lt in Hn. now rewrite Hn. Qed.

(** [parseInt] of a non-empty string of digits is never [NaN]; up to fifteen
    digits it is the value of the digits. *)
Lemma parseInt_digits s :
  s <> "" -> all_chars is_digit s = true ->
  ((exists n, parseInt (VStr s) = Num n /\ 0 <= n) \/ parseInt (VStr s) = Infinity)
  /\ ((String.length s <= 15)%nat ->
      exists n, parseInt (VStr s) = Num n /\ parse_digits s None = Some n
                /\ 0 <= n < 10 ^ 15).
Proof.
  intros Hne Hs. destruct (parse_digits_value s Hne Hs) as (n & Hn & Hlo & Hhi).
  unfold parseInt. rewrite Hn. split.
  - now apply to_double_range.
  - intros Hlen. exists n.
    assert (10 ^ Z.of_nat (String.length s) <= 10 ^ 15)
      by (apply Z.pow_le_mono_r; lia).
    rewrite to_double_exact by lia. split; [reflexivity | split; [reflexivity | lia]].
Qed.

(** Where rounding shows: 2^53 + 1 and 10^23 are not doubles, and 10^310
    is beyond all of them. *)
Example parseInt_rounds :
  parseInt (VStr "9007199254740993") = Num 9007199254740992
  /\ parseInt (VStr "9007199254740995") = Num 9007199254740996
  /\ parseInt (VStr "100000000000000000000000") = Num 99999999999999991611392
  /\ parseInt (VStr ("1" ++ String.concat "" (repeat "0000000000" 31))) = Infinity.
Proof. vm_compute. repeat split. Qed.

(** X3. The settings resolved from any match are valid for the engine:
    the format is png or pdf, the scale is 1, 2, 3 or 4, and width and
    height, given together or defaulted together, are never [NaN]: each is
    a number that is not negative, or [Infinity], which a string of digits
    too long for a double gives. A width or height of at most fifteen digits
    is the value of its digits. Zero is a width the pattern lets through. *)
Theorem resolved_settings_valid (url : string) (g : groups) :
  match_pattern url = Some g ->
  (format (resolve g) = "png" \/ format (resolve g) = "pdf")
  /\ (scale (resolve g) = Num 1 \/ scale (resolve g) = Num 2
      \/ scale (resolve g) = Num 3 \/ scale (resolve g) = Num 4)
  /\ ((exists w, width (resolve g) = Num w /\ 0 <= w) \/ width (resolve g) = Infinity)
  /\ ((exists h, height (resolve g) = Num h /\ 0 <= h) \/ height (resolve g) = Infinity)
  /\ (forall w, g_width g = Some w -> (String.length w <= 15)%nat ->
        exists n, width (resolve g) = Num n /\ parse_digits w None = Some n
                  /\ 0 <= n < 10 ^ 15)
  /\ (forall h, g_height g = Some h -> (String.length h <= 15)%nat ->
        exists n, height (resolve g) = Num n /\ parse_digits h None = Some n
                  /\ 0 <= n < 10 ^ 15)
  /\ (g_width g = None <-> g_height g = None)
  /\ (g_width g = None -> width (resolve g) = Num 1200 /\ height (resolve g) = Num 630).
Proof.
  intros Hm. apply match_pattern_shape in Hm as [(_ & Hsize & _ & Hscale & Hformat & _) _].
  unfold resolve. cbn [format scale width height].
  split; [| split; [| split; [| split; [| split; [| split; [| split]]]]]].
  - destruct Hformat as [-> | [-> | ->]]; auto.
  - destruct Hscale as [-> | [-> | [-> | ->]]]; auto.
  - destruct Hsize as [[-> _] | (w & h & -> & _ & Hwne & _ & Hw & _)].
    + left. exists 1200. split; [reflexivity | lia].
    + cbn [fmap option_fmap option_map nullish default].
      exact (proj1 (parseInt_digits w Hwne Hw)).
  - destruct Hsize as [[_ ->] | (w & h & _ & -> & _ & Hhne & _ & Hh)].
    + left. exists 630. split; [reflexivity | lia].
    + cbn [fmap option_fmap option_map nullish default].
      exact (proj1 (parseInt_digits h Hhne Hh)).
  - intros w0 Hw0 Hlen.
    destruct Hsize as [[Hnone _] | (w & h & Hgw & _ & Hwne & _ & Hw & _)]; [congruence |].
    rewrite Hgw in Hw0 |- *. injection Hw0 as ->.
    cbn [fmap option_fmap option_map nullish default].
    exact (proj2 (parseInt_digits w0 Hwne Hw) Hlen).
  - intros h0 Hh0 Hlen.
    destruct Hsize as [[_ Hnone] | (w & h & _ & Hgh & _ & Hhne & _ & Hh)]; [congruence |].
    rewrite Hgh in Hh0 |- *. injection Hh0 as ->.
    cbn [fmap option_fmap option_map nullish default].
    exact (proj2 (parseInt_digits h0 Hhne Hh) Hlen).
  - destruct Hsize as [[-> ->] | (w & h & -> & -> & _)]; split; (reflexivity || discriminate).
  - destruct Hsize as [[-> ->] | (w & h & -> & -> & _)]; [split; reflexivity | discriminate].
Qed.

Lemma resolved_settings_valid_witness :
  (format (resolve settings_zero) = "png" \/ format (resolve settings_zero) = "pdf")
  /\ (scale (resolve settings_zero) = Num 1 \/ scale (resolve settings_zero) = Num 2
      \/ scale (resolve settings_zero) = Num 3 \/ scale (resolve settings_zero) = Num 4)
  /\ ((exists w, width (resolve settings_zero) = Num w /\ 0 <= w)
      \/ width (resolve settings_zero) = Infinity)
  /\ ((exists h, height (resolve settings_zero) = Num h /\ 0 <= h)
      \/ height (resolve settings_zero) = Infinity)
  /\ (forall w, g_width settings_zero = Some w -> (String.length w <= 15)%nat ->
        exists n, width (resolve settings_zero) = Num n /\ parse_digits w None = Some n
                  /\ 0 <= n < 10 ^ 15)
  /\ (forall h, g_height settings_zero = Some h -> (String.length h <= 15)%nat ->
        exists n, height (resolve settings_zero) = Num n /\ parse_digits h None = Some n
                  /\ 0 <= n < 10 ^ 15)
  /\ (g_width settings_zero = None <-> g_height settings_zero = None)
  /\ (g_width settings_zero = None ->
      width (resolve settings_zero) = Num 1200 /\ height (resolve settings_zero) = Num 630).
Proof.
  apply (resolved_settings_valid url_zero settings_zero). vm_compute. reflexivity.
Defined.

(** ** The query of the target URL *)

Lemma split_amp_nonempty s : split_amp s <> [].
Proof.
  destruct s as [| c s]; [discriminate |]. cbn [split_amp].
  destruct (Ascii.eqb c "&"); [discriminate |]. destruct (split_amp s); discriminate.
Qed.

(** Splitting at ampersands and joining with ampersands gives the string back. *)
Lemma join_split_amp s : join "&" (split_amp s) = s.
Proof.
  induction s as [| c s IH]; [reflexivity |].
  cbn [split_amp]. destruct (Ascii.eqb_spec c "&") as [-> | Hc].
  - pose proof (split_amp_nonempty s) as Hne.
    destruct (split_amp s) as [| x xs]; [congruence |].
    cbn [join]. cbn [join] in IH. rewrite IH. reflexivity.
  - pose proof (split_amp_nonempty s) as Hne.
    destruct (split_amp s) as [| x xs]; [congruence |].
    destruct xs as [| y ys].
    + cbn [join] in *. now rewrite IH.
    + cbn [join] in *. rewrite <- IH. reflexivity.
Qed.

Lemma join_app sep xs ys :
  xs <> [] -> ys <> [] -> join sep (xs ++ ys) = join sep xs ++ sep ++ join sep ys.
Proof.
  intros Hx Hy. induction xs as [| x xs IH]; [congruence |].
  destruct xs as [| x' xs].
  - destruct ys as [| y ys]; [congruence |]. reflexivity.
  - change (x ++ sep ++ join sep ((x' :: xs) ++ ys)
            = (x ++ sep ++ join sep (x' :: xs)) ++ sep ++ join sep ys).
    rewrite IH by discriminate. now rewrite !str_app_assoc.
Qed.

(** X1. Round trip of a match: a URL that matches is the concatenation of
    what its groups captured, with the marker ([/screenshot] or
    [/screenshots]) after the base; nothing of the URL is lost or invented,
    and every group has the shape its part of the pattern allows. *)
Theorem match_round_trip (url : string) (g : groups) :
  match_pattern url = Some g ->
  well_formed g
  /\ exists marker,
       (marker = "/screenshot" \/ marker = "/screenshots") /\ rebuild marker g = url.
Proof.
  intros Hm. destruct (match_pattern_shape url g Hm) as (Hwf & marker & Hmarker & Hurl).
  split; [exact Hwf |]. exists marker. split; [exact Hmarker | now symmetry].
Qed.

Lemma match_round_trip_witness :
  well_formed settings_example
  /\ exists marker,
       (marker = "/screenshot" \/ marker = "/screenshots")
       /\ rebuild marker settings_example = url_example.
Proof.
  apply (match_round_trip url_example settings_example). vm_compute. reflexivity.
Defined.

(** X2. The pattern accepts exactly the URLs of its shape: a URL matches if
    and only if it is some well-formed groups put after one of the two
    markers. *)
Theorem pattern_accepts_exactly (url : string) :
  is_Some (match_pattern url)
  <-> exists marker g,
        well_formed g
        /\ (marker = "/screenshot" \/ marker = "/screenshots")
        /\ url = rebuild marker g.
Proof.
  split.
  - intros [g Hm]. destruct (match_pattern_shape url g Hm) as (Hwf & marker & Hmarker & Hurl).
    exists marker, g. auto.
  - intros (marker & g & Hwf & Hmarker & ->). now apply well_formed_url_matches.
Qed.

(** X4. The query of the target URL: the text of the request's query, then
    the text of the configured parameters, each as it was written (one
    leading question mark dropped), joined by an ampersand when both are
    there. The question mark is always there. *)
Theorem target_query_in_order (env : Env) (g : groups) :
  url_of env g
  = default "" (g_base g) ++ default "" (g_path g) ++ "?"
    ++ match query_text (g_query g), query_text (QUERY_PARAMS env) with
       | Some a, Some b => a ++ "&" ++ b
       | Some a, None => a
       | None, Some b => b
       | None, None => ""
       end.
Proof.
  rewrite target_url_shape. unfold params_of, query_text. do 3 f_equal.
  destruct (truthy (g_query g)), (truthy (QUERY_PARAMS env)).
  - rewrite join_app by apply split_amp_nonempty. now rewrite !join_split_amp.
  - rewrite app_nil_r. apply join_split_amp.
  - apply join_split_amp.
  - reflexivity.
Qed.

(** X5. Without configured parameters, a request with a query is rendered
    at the request URL with the marker, size, scale and format cut out:
    base, path and query are forwarded as they were written. *)
Theorem target_url_cuts_segments (env : Env) (url : string) (g : groups) (q : string) :
  match_pattern url = Some g ->
  truthy (QUERY_PARAMS env) = false ->
  g_query g = Some q ->
  url_of env g = default "" (g_base g) ++ default "" (g_path g) ++ q
  /\ exists marker,
       (marker = "/screenshot" \/ marker = "/screenshots")
       /\ url = default "" (g_base g) ++ marker ++ segment_size g ++ default "" (g_path g)
                ++ segment_scale g ++ segment_format g ++ q.
Proof.
  intros Hm Henv Hq.
  destruct (match_pattern_shape url g Hm)
    as ((_ & _ & _ & _ & _ & Hquery) & marker & Hmarker & Hurl).
  split.
  - rewrite target_url_shape. unfold params_of. rewrite Henv, Hq, app_nil_r.
    destruct Hquery as [Hnone | (q' & Hsome & _)]; [congruence |].
    rewrite Hq in Hsome. injection Hsome as ->.
    cbn [truthy default from_option id].
    change (negb (String.eqb ("?" ++ q') "")) with true.
    change (strip_question ("?" ++ q')) with q'.
    cbv iota. rewrite join_split_amp. reflexivity.
  - exists marker. split; [exact Hmarker |]. rewrite Hurl. unfold rebuild. now rewrite Hq.
Qed.

Lemma target_url_cuts_segments_witness :
  url_of env_plain settings_example = "https://example.com/foo/bar?x=1"
  /\ exists marker,
       (marker = "/screenshot" \/ marker = "/screenshots")
       /\ url_example
          = "https://example.com" ++ marker ++ "/600x400" ++ "/foo/bar" ++ "@2x" ++ ".pdf"
            ++ "?x=1".
Proof.
  apply (target_url_cuts_segments env_plain url_example settings_example "?x=1").
  - vm_compute. reflexivity.
  - reflexivity.
  - reflexivity.
Defined.

(** * More properties: the handlers *)

(** ** Which browser a request uses *)

Ltac unfold_fetch :=
  unfold Browser.fetch, Browser.finish, Browser.read_settings, Browser.acquire, Browser.render, Browser.arm,
    Browser.respond;
  unfold_monad.

(** X6. A connected browser is reused: with a browser at hand that reports
    itself connected, a request launches nothing, leaves [this.browser] as it
    is and opens its context, if any, on that browser. *)
Theorem connected_browser_is_reused (H : Host) (env : Env) (url : string) (w : World)
    (h : handle) :
  browser w = Some h ->
  isConnected H h = true ->
  let run := Browser.fetch H env url w in
  browser (snd3 run) = Some h
  /\ existsb is_Launch (thd3 run) = false
  /\ (forall h', In (CreateIncognitoBrowserContext h') (thd3 run) -> h' = h)
  /\ (forall g, match_pattern url = Some g -> In (CreateIncognitoBrowserContext h) (thd3 run)).
Proof.
  intros Hb Hc. destruct w as [b kept slot store reads]. cbn in Hb. subst b.
  cbv zeta. unfold fst3, snd3, thd3. unfold_fetch.
  destruct (match_pattern url) as [g |] eqn:Hm; simpl.
  - rewrite Hc. simpl.
    repeat (simpl; split_next); simpl;
      (split; [reflexivity | split; [reflexivity | split; [| intros; auto 20]]]);
      intros h' Hin; intuition congruence.
  - split; [reflexivity | split; [reflexivity | split; [contradiction | discriminate]]].
Qed.

Lemma connected_browser_is_reused_witness :
  browser (snd3 (Browser.fetch host_ok env_plain url_example warm)) = Some 1%nat
  /\ existsb is_Launch (thd3 (Browser.fetch host_ok env_plain url_example warm)) = false.
Proof.
  destruct (connected_browser_is_reused host_ok env_plain url_example warm 1%nat
              eq_refl eq_refl) as (Hb & Hl & _).
  split; [exact Hb | exact Hl].
Defined.

(** X7. A missing or disconnected browser is replaced: when none is at hand,
    or the one at hand reports itself disconnected, and the launch succeeds,
    a request whose URL matches launches exactly once, installs the new
    browser and opens its context on it and on no other. *)
Theorem stale_browser_is_replaced (H : Host) (env : Env) (url : string) (w : World)
    (g : groups) (h : handle) :
  match_pattern url = Some g ->
  (browser w = None \/ exists h0, browser w = Some h0 /\ isConnected H h0 = false) ->
  launch H = Normal h ->
  let run := Browser.fetch H env url w in
  browser (snd3 run) = Some h
  /\ List.filter is_Launch (thd3 run) = [Launch]
  /\ In (CreateIncognitoBrowserContext h) (thd3 run)
  /\ (forall h', In (CreateIncognitoBrowserContext h') (thd3 run) -> h' = h).
Proof.
  intros Hm Hstale Hl. destruct w as [b kept slot store reads]. cbn in Hstale.
  cbv zeta. unfold fst3, snd3, thd3. unfold_fetch. rewrite Hm. simpl.
  destruct Hstale as [-> | (h0 & -> & Hc)]; simpl; rewrite ?Hc; simpl; rewrite Hl; simpl;
    repeat (simpl; split_next); simpl;
      (split; [reflexivity | split; [reflexivity | split; [auto 20 |]]]);
      intros h' Hin; intuition congruence.
Qed.

Lemma stale_browser_is_replaced_witness :
  browser (snd3 (Browser.fetch host_relaunch env_plain url_example warm)) = Some 5%nat
  /\ In (CreateIncognitoBrowserContext 5%nat)
        (thd3 (Browser.fetch host_relaunch env_plain url_example warm)).
Proof.
  destruct (stale_browser_is_replaced host_relaunch env_plain url_example warm
              settings_example 5%nat) as (Hb & _ & Hin & _).
  - vm_compute. reflexivity.
  - right. exists 1%nat. split; reflexivity.
  - reflexivity.
  - split; [exact Hb | exact Hin].
Defined.



(** ** What is captured and how it is answered *)

(** X9. The capture agrees with the answer: a response of type
    [application/pdf] carries what [page.pdf] returned for a URL with the
    pdf suffix; any other response is of type [image/png] and carries what
    [page.screenshot] returned for a clip of the resolved width and height.
    No other content type is ever answered. *)
Theorem capture_matches_content_type (H : Host) (env : Env) (url : string) (w : World)
    (g : groups) (response : Response) :
  match_pattern url = Some g ->
  fst3 (Browser.fetch H env url w) = Normal response ->
  (g_format g = Some "pdf"
   /\ In ("Content-Type", "application/pdf") (headers response)
   /\ exists p, In (Pdf p) (thd3 (Browser.fetch H env url w))
                /\ pdf H p = Normal (body response))
  \/ (g_format g <> Some "pdf"
      /\ In ("Content-Type", "image/png") (headers response)
      /\ exists p, In (Screenshot p (width (resolve g)) (height (resolve g)))
                      (thd3 (Browser.fetch H env url w))
                   /\ screenshot H p (width (resolve g)) (height (resolve g))
                      = Normal (body response)).
Proof.
  intros Hm.
  assert (Hformat : format_ok g) by (apply (match_pattern_shape url g Hm)).
  unfold fst3, thd3. unfold_fetch. rewrite Hm.
  destruct Hformat as [Hf | [Hf | Hf]];
    unfold resolve; cbn [format width height scale maxage]; rewrite Hf;
    cbn [nullish default from_option id d_format defaults].
  - change (String.eqb "png" "pdf") with false.
    repeat (simpl; split_next); simpl; try discriminate; intros [= <-]; simpl.
    all: right; split; [discriminate |]; split; [auto |].
    all: eexists; (split; [| eassumption]); auto 20.
  - change (String.eqb "pdf" "pdf") with true.
    repeat (simpl; split_next); simpl; try discriminate; intros [= <-]; simpl.
    all: left; split; [reflexivity |]; split; [auto |].
    all: eexists; (split; [| eassumption]); auto 20.
  - change (String.eqb "png" "pdf") with false.
    repeat (simpl; split_next); simpl; try discriminate; intros [= <-]; simpl.
    all: right; split; [discriminate |]; split; [auto |].
    all: eexists; (split; [| eassumption]); auto 20.
Qed.

Lemma capture_matches_content_type_witness :
  In ("Content-Type", "application/pdf")
     (headers match fst3 (Browser.fetch host_ok env_plain url_example fresh) with
              | Normal response => response
              | Throw _ => cached_png
              end).
Proof.
  destruct (capture_matches_content_type host_ok env_plain url_example fresh settings_example
              match fst3 (Browser.fetch host_ok env_plain url_example fresh) with
              | Normal response => response
              | Throw _ => cached_png
              end) as [(_ & Hct & _) | (Hf & _)].
  - vm_compute. reflexivity.
  - vm_compute. reflexivity.
  - exact Hct.
  - exfalso. apply Hf. reflexivity.
Defined.

(** X10. The expiry announced is the lifetime after the moment the response
    is built: the clock is read once more after rendering (and after the
    reading for a new alarm, when one is set), and [Expires] is that reading
    plus 604800000 ms, the same week that [max-age] announces in seconds. *)
Theorem expires_after_render (H : Host) (env : Env) (url : string) (w : World)
    (response : Response) :
  fst3 (Browser.fetch H env url w) = Normal response ->
  let k := (clockReads w + match storedAlarm w with Some _ => 0 | None => 1 end)%nat in
  In ("Expires", toUTCString H (Date_now H k + 604800000)) (headers response)
  /\ clockReads (snd3 (Browser.fetch H env url w)) = S k.
Proof.
  destruct w as [b kept slot store reads].
  unfold fst3, snd3. unfold_fetch.
  repeat (simpl; split_next); simpl; try discriminate; intros [= <-]; simpl;
    rewrite ?Nat.add_0_r, ?Nat.add_1_r; auto.
Qed.

Lemma expires_after_render_witness :
  let response := match fst3 (Browser.fetch host_ok env_plain url_example fresh) with
                  | Normal response => response
                  | Throw _ => cached_png
                  end in
  In ("Expires", toUTCString host_ok (Date_now host_ok 1 + 604800000)) (headers response)
  /\ clockReads (snd3 (Browser.fetch host_ok env_plain url_example fresh)) = 2%nat.
Proof.
  cbv zeta. apply (expires_after_render host_ok env_plain url_example fresh).
  vm_compute. reflexivity.
Defined.

(** X15. The calls on the page follow one script, in order and without
    repetition: the access headers when both are set, the viewport of the
    resolved size and scale, the navigation to the target URL, the capture
    (a clip of the viewport's width and height unless the format is pdf) and
    the close. A request that throws has made a prefix of these calls; one
    that completes has made them all. *)
Theorem page_calls_follow_script (H : Host) (env : Env) (url : string) (w : World)
    (g : groups) (c : context) (p : page) :
  match_pattern url = Some g ->
  In (NewPage c) (thd3 (Browser.fetch H env url w)) ->
  newPage H c = Normal p ->
  exists rest,
    page_script env g p
    = (List.filter is_page_call (thd3 (Browser.fetch H env url w)) ++ rest)%list
    /\ (forall response, fst3 (Browser.fetch H env url w) = Normal response -> rest = []).
Proof.
  intros Hm. unfold page_script, both_set, access_headers, fst3, thd3.
  unfold_fetch. rewrite Hm.
  repeat (simpl; split_next); simpl;
    intros Hin Hp;
    repeat match goal with
           | Hor : _ \/ _ |- _ => destruct Hor as [Hor | Hor]; try discriminate Hor
           | Hf : False |- _ => destruct Hf
           end;
    match goal with
    | Heq : NewPage _ = NewPage _ |- _ => injection Heq as ->
    end;
    try congruence;
    match goal with
    | Hp1 : newPage H c = Normal ?p1, Hp2 : newPage H c = Normal p |- _ =>
        rewrite Hp2 in Hp1; injection Hp1 as <-
    end;
    eexists; (split; [reflexivity | intros ?; try discriminate; reflexivity]).
Qed.

Lemma page_calls_follow_script_witness :
  exists rest,
    page_script env_access settings_example 3%nat
    = (List.filter is_page_call (thd3 (Browser.fetch host_goto_fails env_access url_example
                                         fresh)) ++ rest)%list.
Proof.
  destruct (page_calls_follow_script host_goto_fails env_access url_example fresh
              settings_example 2%nat 3%nat) as (rest & Hscript & _).
  - vm_compute. reflexivity.
  - vm_compute. auto 10.
  - reflexivity.
  - exists rest. exact Hscript.
Defined.

(** ** The alarm handler and the session *)

(** X12. The alarm handler only ever closes: it launches nothing, opens no
    context, leaves the cache and [this.browser] as they are (a closed
    browser stays in [this.browser]), and closes a browser only when the
    budget is used up, and then the one at hand. *)
Theorem alarm_only_closes (H : Host) (w : World) :
  let run := Browser.alarm H w in
  browser (snd3 run) = browser w
  /\ cache (snd3 run) = cache w
  /\ forallb (fun e => negb (is_engine_call e) || is_BrowserClose e) (thd3 run) = true
  /\ (forall h, In (BrowserClose h) (thd3 run) ->
        browser w = Some h
        /\ KEEP_BROWSER_ALIVE_IN_SECONDS <= keptAliveInSeconds w + 10
        /\ fst3 run = browser_close H h).
Proof.
  cbv zeta. unfold Browser.alarm, fst3, snd3, thd3. unfold_monad.
  cbn [keptAliveInSeconds set_keptAliveInSeconds].
  destruct (Z.ltb_spec (keptAliveInSeconds w + 10) KEEP_BROWSER_ALIVE_IN_SECONDS) as [Hlt | Hge].
  - simpl. split; [reflexivity |]. split; [reflexivity |]. split; [reflexivity |].
    intros h [[=] | [[=] | []]].
  - simpl. destruct (browser w) as [h0 |] eqn:Hb; simpl.
    + split; [exact Hb |]. split; [reflexivity |]. split; [reflexivity |].
      intros h [[=] | [[=] | [[= ->] | []]]]. auto.
    + split; [exact Hb |]. split; [reflexivity |]. split; [reflexivity |].
      intros h [[=] | []].
Qed.

(** X13. An evicted session is recreated lazily: once the alarm has closed
    the browser, a request that finds it disconnected launches a new one,
    installs it, and, being the first since the slot was emptied, sets the
    alarm again when it completes. *)
Theorem evicted_session_is_recreated (H H' : Host) (env : Env) (url : string) (w : World)
    (g : groups) (h h' : handle) :
  browser w = Some h ->
  KEEP_BROWSER_ALIVE_IN_SECONDS <= keptAliveInSeconds w + 10 ->
  isConnected H' h = false ->
  launch H' = Normal h' ->
  match_pattern url = Some g ->
  let w1 := snd3 (deliver_alarm H w) in
  let run := Browser.fetch H' env url w1 in
  In (BrowserClose h) (thd3 (deliver_alarm H w))
  /\ browser w1 = Some h /\ storedAlarm w1 = None
  /\ browser (snd3 run) = Some h'
  /\ List.filter is_Launch (thd3 run) = [Launch]
  /\ keptAliveInSeconds (snd3 run) = 0
  /\ (forall response, fst3 run = Normal response ->
        storedAlarm (snd3 run) = Some (Date_now H' (clockReads w) + 10 * 1000)).
Proof.
  intros Hb Hge Hc Hl Hm. cbv zeta. rewrite deliver_alarm_run.
  destruct (alarm_evicts H (set_storedAlarm None w)) as [msg ->]; [exact Hge |].
  unfold snd3 at 1 2 3 4 5 6 7. unfold thd3 at 1. cbn [fst snd].
  cbn [browser set_storedAlarm set_keptAliveInSeconds storedAlarm]. rewrite Hb.
  split; [simpl; auto |]. split; [reflexivity |]. split; [reflexivity |].
  destruct w as [b kept slot store reads]. cbn in Hb. subst b.
  unfold fst3, snd3, thd3. unfold_fetch. rewrite Hm. simpl. rewrite Hc. simpl.
  rewrite Hl. simpl.
  repeat (simpl; split_next); simpl;
    (split; [reflexivity | split; [reflexivity | split; [reflexivity |]]]);
    intros response; try discriminate; reflexivity.
Qed.

Lemma evicted_session_is_recreated_witness :
  browser (snd3 (Browser.fetch host_relaunch env_plain url_example
                   (snd3 (deliver_alarm host_ok idle50)))) = Some 5%nat
  /\ storedAlarm (snd3 (deliver_alarm host_ok idle50)) = None.
Proof.
  destruct (evicted_session_is_recreated host_ok host_relaunch env_plain url_example idle50
              settings_example 1%nat 5%nat) as (_ & _ & Hslot & Hb & _).
  - reflexivity.
  - vm_compute. congruence.
  - reflexivity.
  - reflexivity.
  - vm_compute. reflexivity.
  - split; [exact Hb | exact Hslot].
Defined.

(** X14. What a request never does: [Browser.fetch] never closes the
    browser, never reads or writes the cache, and launches at most once. *)
Theorem fetch_never_closes_browser (H : Host) (env : Env) (url : string) (w : World) :
  let run := Browser.fetch H env url w in
  existsb is_BrowserClose (thd3 run) = false
  /\ existsb (fun e => match e with CacheMatch _ | CachePut _ _ => true | _ => false end)
       (thd3 run) = false
  /\ cache (snd3 run) = cache w
  /\ (length (List.filter is_Launch (thd3 run)) <= 1)%nat.
Proof.
  cbv zeta. unfold snd3, thd3. unfold_fetch.
  repeat (simpl; split_next); simpl; repeat split; lia.
Qed.
